(** * Gordeyev-integral engine: a shallow embedding and its properties

    The development follows the three Python modules of the repository:

    - [parallelization]      (src/parallelization.py): the outer integral
      over the frequency grid, written by a worker pool into one shared
      buffer;
    - [v_int_parallel]       (src/program/utils/parallel/v_int_parallel.py):
      the velocity integral for every sample of the Gordeyev variable;
    - [integrand_functions]  (src/program/utils/integrand_functions.py):
      the Maxwell, kappa and isotropic integrands.

    Numbers are IEEE 754 binary64 values (Rocq's primitive floats), with
    numpy's float64 arithmetic: an operation never raises, it returns an
    infinity or a NaN.  The parameters are taken to be numpy scalars;
    Python's own float differs only where it would raise
    ZeroDivisionError or OverflowError, on inputs that the properties
    about values at [y = 0] rule out by asking for finite coefficients.
    One-dimensional numpy arrays are lists.  What the code
    imports from numpy's and scipy's compiled libraries (sin, cos, exp,
    power, the Bessel and gamma functions, the Simpson rule) is an
    interface, [Scipy]; the few facts about these functions that a
    property needs are collected in [ScipyFacts] and assumed where it
    needs them.  Python exceptions are the [Raise] results of the [res]
    monad.

    A worker pool is modelled by the order in which it completes its
    work units, any permutation of the units handed to it: a unit reads
    its arguments only and writes one slot of the shared buffer, so the
    interleaving of the processes shows in this order alone. *)

From Stdlib Require Import Floats ZArith Lia.
From stdpp Require Import base option list strings.

#[local] Set Warnings "-inexact-float".
#[local] Open Scope float_scope.

(* ===================================================================== *)
(** * binary64 arithmetic: the facts the models rely on *)
(* ===================================================================== *)

Module IEEE.

(** [x] is a zero of either sign: what [x == 0.] tests. *)
Definition fzero (x : float) : Prop := is_zero x = true.

(** [x] is neither a NaN nor an infinity. *)
Definition finite (x : float) : Prop := is_finite x = true.

(** [x] can be divided by: it is neither a NaN nor a zero. *)
Definition divisor (x : float) : Prop := is_nan x = false /\ is_zero x = false.

Lemma prim_of_SF (x : float) (s : spec_float) : Prim2SF x = s -> x = SF2Prim s.
Proof. intros <-. symmetry. apply SF2Prim_Prim2SF. Qed.

Lemma fzero_cases (x : float) : fzero x -> x = zero \/ x = neg_zero.
Proof.
  unfold fzero, is_zero. rewrite FloatAxioms.eqb_spec.
  destruct (Prim2SF x) as [s|s| |s m e] eqn:E; try (destruct s; discriminate).
  - intros _. apply prim_of_SF in E. destruct s; [right|left]; exact E.
  - discriminate.
Qed.

Lemma fzero_of_SF (x : float) (s : bool) : Prim2SF x = S754_zero s -> fzero x.
Proof. intros E. apply prim_of_SF in E. subst x. destruct s; reflexivity. Qed.

Lemma finite_cases (x : float) :
  finite x ->
  (exists s, Prim2SF x = S754_zero s) \/ (exists s m e, Prim2SF x = S754_finite s m e).
Proof.
  unfold finite, is_finite, is_nan, is_infinity.
  rewrite !FloatAxioms.eqb_spec, abs_spec.
  destruct (Prim2SF x) as [s|s| |s m e] eqn:E.
  - intros _. left. eauto.
  - destruct s; discriminate.
  - discriminate.
  - intros _. right. eauto.
Qed.

Lemma divisor_cases (x : float) :
  divisor x ->
  (exists s, Prim2SF x = S754_infinity s) \/ (exists s m e, Prim2SF x = S754_finite s m e).
Proof.
  unfold divisor, is_nan, is_zero. rewrite !FloatAxioms.eqb_spec.
  change (Prim2SF zero) with (S754_zero false).
  destruct (Prim2SF x) as [s|s| |s m e] eqn:E.
  - intros [_ Hz]. destruct s; discriminate.
  - intros _. left. eauto.
  - intros [Hn _]. discriminate.
  - intros _. right. eauto.
Qed.

Lemma fzero_finite (x : float) : fzero x -> finite x.
Proof. intros [-> | ->]%fzero_cases; reflexivity. Qed.

(** ** Zeros absorb products and survive sums, differences and quotients *)

Lemma mul_zero_r (x z : float) : finite x -> fzero z -> fzero (x * z).
Proof.
  intros Hx Hz.
  assert (exists s, Prim2SF (x * z) = S754_zero s) as [s Hs]; [|by eapply fzero_of_SF].
  rewrite mul_spec. apply fzero_cases in Hz. apply finite_cases in Hx.
  destruct Hx as [[s ->]|(s & m & e & ->)], Hz as [-> | ->]; cbn; eauto.
Qed.

Lemma mul_zero_l (z x : float) : fzero z -> finite x -> fzero (z * x).
Proof.
  intros Hz Hx.
  assert (exists s, Prim2SF (z * x) = S754_zero s) as [s Hs]; [|by eapply fzero_of_SF].
  rewrite mul_spec. apply fzero_cases in Hz. apply finite_cases in Hx.
  destruct Hx as [[s ->]|(s & m & e & ->)], Hz as [-> | ->]; cbn; eauto.
Qed.

Lemma zero_div (z d : float) : fzero z -> divisor d -> fzero (z / d).
Proof.
  intros Hz Hd.
  assert (exists s, Prim2SF (z / d) = S754_zero s) as [s Hs]; [|by eapply fzero_of_SF].
  rewrite div_spec. apply fzero_cases in Hz. apply divisor_cases in Hd.
  destruct Hd as [[s ->]|(s & m & e & ->)], Hz as [-> | ->]; cbn; eauto.
Qed.

Lemma zero_sub_zero (a b : float) : fzero a -> fzero b -> fzero (a - b).
Proof. intros [-> | ->]%fzero_cases [-> | ->]%fzero_cases; reflexivity. Qed.

Lemma zero_add_zero (a b : float) : fzero a -> fzero b -> fzero (a + b).
Proof. intros [-> | ->]%fzero_cases [-> | ->]%fzero_cases; reflexivity. Qed.

Lemma zero_mul_zero (a b : float) : fzero a -> fzero b -> fzero (a * b).
Proof. intros [-> | ->]%fzero_cases [-> | ->]%fzero_cases; reflexivity. Qed.

Lemma opp_zero (z : float) : fzero z -> fzero (- z).
Proof. intros [-> | ->]%fzero_cases; reflexivity. Qed.

Lemma sqrt_zero (z : float) : fzero z -> fzero (sqrt z).
Proof. intros [-> | ->]%fzero_cases; reflexivity. Qed.

Lemma zero_mul_one (z : float) : fzero z -> fzero (z * 1).
Proof. intros [-> | ->]%fzero_cases; reflexivity. Qed.

Lemma one_sub_one : fzero (1 - 1).
Proof. reflexivity. Qed.

(** ** The sign is dropped by [abs] *)

Lemma abs_opp (x : float) : abs (- x) = abs x.
Proof.
  apply Prim2SF_inj. rewrite !abs_spec, opp_spec.
  by destruct (Prim2SF x).
Qed.

(** A float that equals neither infinity is not an infinity. *)
Lemma not_infinity (x : float) :
  (x =? infinity) = false -> (x =? neg_infinity) = false -> is_infinity x = false.
Proof.
  unfold is_infinity. rewrite !FloatAxioms.eqb_spec, abs_spec.
  change (Prim2SF infinity) with (S754_infinity false).
  change (Prim2SF neg_infinity) with (S754_infinity true).
  by destruct (Prim2SF x) as [s|[|]| |s m e].
Qed.

(** ** Multiplying by one is exact *)

Lemma Zpos_succ (p : positive) : Z.pos (PosDef.Pos.succ p) = (Z.pos p + 1)%Z.
Proof. change (PosDef.Pos.succ p) with (Pos.succ p). lia. Qed.

Lemma digits2_shift52 (m : positive) :
  Z.pos (digits2_pos (Pos.mul m 4503599627370496)) = (Z.pos (digits2_pos m) + 52)%Z.
Proof.
  rewrite Pos.mul_comm.
  cbv beta iota fix delta [Pos.mul PosDef.Pos.mul digits2_pos].
  fold digits2_pos. rewrite !Zpos_succ. lia.
Qed.

Lemma shr52 (m : positive) :
  SpecFloat.iter_pos shr_1 52%positive
    (Build_shr_record (Z.pos (Pos.mul m 4503599627370496)) false false)
  = Build_shr_record (Z.pos m) false false.
Proof. rewrite Pos.mul_comm. reflexivity. Qed.

Lemma SFmul_one_r (s : bool) (m : positive) (e : Z) :
  valid_binary (S754_finite s m e) = true ->
  SF64mul (S754_finite s m e) (Prim2SF one) = S754_finite s m e.
Proof.
  intros Hv. cbn in Hv. unfold bounded, canonical_mantissa in Hv.
  apply andb_prop in Hv as [Hc Hb]. apply Z.eqb_eq in Hc.
  change (Prim2SF one) with (S754_finite false 4503599627370496 (-52)).
  unfold SF64mul, SFmul, binary_round_aux.
  unfold shr_fexp at 1. unfold Zdigits2. rewrite digits2_shift52.
  replace (Z.pos (digits2_pos m) + 52 + (e + -52))%Z
    with (Z.pos (digits2_pos m) + e)%Z by lia.
  rewrite Hc. replace (e - (e + -52))%Z with 52%Z by lia.
  unfold shr at 1. cbn [shr_record_of_loc]. rewrite shr52.
  cbn [shr_m loc_of_shr_record round_nearest_even].
  unfold shr_fexp, Zdigits2.
  replace (e + -52 + 52)%Z with e by lia.
  rewrite Hc, Z.sub_diag. cbn [shr shr_record_of_loc shr_m].
  rewrite Hb. by destruct s.
Qed.

Lemma mul_one_r (x : float) : finite x -> x * 1 = x.
Proof.
  intros Hx. apply Prim2SF_inj. rewrite mul_spec.
  pose proof (Prim2SF_valid x) as Hv.
  destruct (finite_cases x Hx) as [[s E]|(s & m & e & E)]; rewrite E in *.
  - by destruct s.
  - by apply SFmul_one_r.
Qed.

(** ** [(z - b) + b] is a zero when [z] is: the cancellation behind the
    vanishing denominator of [p_d] at [y = 0] *)

Lemma SFadd_opp_self (s : bool) (m : positive) (e : Z) :
  SF64add (S754_finite (negb s) m e) (S754_finite s m e) = S754_zero false.
Proof.
  unfold SF64add, SFadd, shl_align. rewrite Z.min_id, Z.sub_diag.
  cbn [fst]. by destruct s; cbn [negb cond_Zopp]; rewrite ?Z.add_opp_diag_l, ?Z.add_opp_diag_r.
Qed.

Lemma sub_add_cancel_zero (z b : float) : fzero z -> finite b -> fzero ((z - b) + b).
Proof.
  intros Hz Hb.
  assert (exists s, Prim2SF ((z - b) + b) = S754_zero s) as [s Hs]; [|by eapply fzero_of_SF].
  rewrite add_spec, sub_spec. apply fzero_cases in Hz. apply finite_cases in Hb.
  destruct Hb as [[s ->]|(s & m & e & ->)].
  - destruct Hz as [-> | ->], s; cbn; eauto.
  - exists false.
    assert (SF64sub (Prim2SF z) (S754_finite s m e) = S754_finite (negb s) m e) as ->
      by (destruct Hz as [-> | ->]; reflexivity).
    apply SFadd_opp_self.
Qed.

(** ** A finite nonzero number divided by itself is exactly one *)

Lemma SFdiv_self (s : bool) (m : positive) (e : Z) :
  SF64div (S754_finite s m e) (S754_finite s m e) = Prim2SF 1.
Proof.
  unfold SF64div, SFdiv, SFdiv_core_binary.
  rewrite !Z.sub_diag.
  change (Z.min (fexp prec emax 0) 0) with (-53)%Z.
  change (0 - -53)%Z with 53%Z. cbv iota beta.
  rewrite Z.shiftl_mul_pow2 by lia.
  destruct (Z.div_eucl (Z.pos m * 2 ^ 53) (Z.pos m)) as [q r] eqn:E.
  assert (q = (2 ^ 53)%Z /\ r = 0%Z) as [-> ->].
  { assert ((Z.pos m * 2 ^ 53 / Z.pos m)%Z = q) as Hq by (unfold Z.div; by rewrite E).
    assert (((Z.pos m * 2 ^ 53) mod Z.pos m)%Z = r) as Hr by (unfold Z.modulo; by rewrite E).
    rewrite Z.mul_comm, Z.div_mul in Hq by lia.
    rewrite Z.mul_comm, Z.mod_mul in Hr by lia. done. }
  assert (new_location (Z.pos m) 0 = loc_Exact) as ->.
  { unfold new_location, new_location_even, new_location_odd. by destruct (Z.even _). }
  by destruct s.
Qed.

Lemma div_self (x : float) : finite x -> is_zero x = false -> x / x = 1.
Proof.
  intros Hx Hnz. apply Prim2SF_inj. rewrite div_spec.
  destruct (finite_cases x Hx) as [[s E]|(s & m & e & E)].
  - apply fzero_of_SF in E. unfold fzero in E. congruence.
  - rewrite E. apply SFdiv_self.
Qed.

(** ** Products are odd in each factor *)

Lemma binary_round_aux_opp (s : bool) (m e : Z) (l : location) :
  binary_round_aux prec emax (negb s) m e l = SFopp (binary_round_aux prec emax s m e l).
Proof.
  unfold binary_round_aux.
  destruct (shr_fexp prec emax m e l) as [mrs e'].
  destruct (shr_fexp prec emax _ e' loc_Exact) as [mrs' e''].
  destruct (shr_m mrs'); [done| |done]. by destruct (Z.leb _ _).
Qed.

Lemma mul_opp_l (a b : float) : (- a) * b = - (a * b).
Proof.
  apply Prim2SF_inj. rewrite opp_spec, !mul_spec, opp_spec.
  destruct (Prim2SF a) as [sa|sa| |sa ma ea], (Prim2SF b) as [sb|sb| |sb mb eb];
    cbn; try done; try (by destruct sa, sb).
  rewrite <- binary_round_aux_opp. by destruct sa, sb.
Qed.

Lemma mul_opp_r (a b : float) : a * (- b) = - (a * b).
Proof.
  apply Prim2SF_inj. rewrite opp_spec, !mul_spec, opp_spec.
  destruct (Prim2SF a) as [sa|sa| |sa ma ea], (Prim2SF b) as [sb|sb| |sb mb eb];
    cbn; try done; try (by destruct sa, sb).
  rewrite <- binary_round_aux_opp. by destruct sa, sb.
Qed.

Lemma opp_opp (x : float) : - - x = x.
Proof.
  apply Prim2SF_inj. rewrite !opp_spec.
  destruct (Prim2SF x) as [s|s| |s m e]; cbn; by rewrite ?negb_involutive.
Qed.

Lemma mul_opp_opp (a b : float) : (- a) * (- b) = a * b.
Proof. by rewrite mul_opp_l, mul_opp_r, opp_opp. Qed.

End IEEE.

(* ===================================================================== *)
(** * Python results, numpy arrays and the imported libraries *)
(* ===================================================================== *)

(** The exceptions the modelled code can raise. *)
Inductive exn : Set :=
  | IndexError          (* subscript outside an array *)
  | TypeError           (* arithmetic on [None] *)
  | ValueError          (* shapes that do not broadcast *)
  | KeyError            (* missing dictionary key *)
  | UnboundLocalError.  (* a local read before any assignment *)

(** A Python call either returns a value or raises. *)
Inductive res (A : Type) : Type :=
  | Ok (a : A)
  | Raise (e : exn).
Arguments Ok {A} a.
Arguments Raise {A} e.

#[export] Instance res_ret : MRet res := fun A a => Ok a.
#[export] Instance res_bind : MBind res := fun A B f r =>
  match r with
  | Ok a => f a
  | Raise e => Raise e
  end.
#[export] Instance res_fmap : FMap res := fun A B f r =>
  match r with
  | Ok a => Ok (f a)
  | Raise e => Raise e
  end.

(** [enumerate(l)]: every element paired with its position. *)
Definition enumerate {A : Type} (l : list A) : list (nat * A) := imap pair l.

(** [a[i] = x] on a one-dimensional array: a subscript past the end raises
    (the subscripts of the modelled code are never negative). *)
Definition setitem {A : Type} (i : nat) (x : A) (a : list A) : res (list A) :=
  if decide (i < length a) then Ok (<[i := x]> a) else Raise IndexError.

(** An elementwise binary operator on two one-dimensional arrays, with
    numpy's broadcasting: equal lengths pair up, a length-1 array is
    stretched, anything else raises. *)
Definition np_binop {A B C : Type} (f : A -> B -> C)
    (xs : list A) (ys : list B) : res (list C) :=
  if decide (length xs = length ys) then Ok (zip_with f xs ys)
  else match xs, ys with
       | [x], _ => Ok (map (f x) ys)
       | _, [y] => Ok (map (fun x => f x y) xs)
       | _, _ => Raise ValueError
       end.

(** [np.sign] on a float64. *)
Definition np_sign (x : float) : float :=
  if 0 <? x then 1
  else if x <? 0 then -1
  else if x =? 0 then 0
  else x.

(** What the code calls in numpy's, scipy's and Python's compiled
    libraries. *)
Class Scipy : Type := {
  np_sin : float -> float;
  np_cos : float -> float;
  np_exp : float -> float;
  (** [x ** e] on floats (C's [pow], or numpy's square and square-root
      loops for the exponents 2 and 0.5) *)
  float_pow : float -> float -> float;
  (** [scipy.special.kv(v, z)]: modified Bessel function of the second kind *)
  sps_kv : float -> float -> float;
  (** [scipy.special.gamma] *)
  sps_gamma : float -> float;
  (** [scipy.integrate.simps(values, x)] on arrays of one length *)
  si_simps : list float -> list float -> float;
  (** [scipy.constants.k], the Boltzmann constant *)
  const_k : float;
}.

(** [scipy.integrate.simps(values, x)]: the sample arrays must have one
    length, and it raises on empty arrays. *)
Definition simps `{Scipy} (values x : list float) : res float :=
  if decide (length values = length x) then
    match values with
    | [] => Raise ValueError
    | _ :: _ => Ok (si_simps values x)
    end
  else Raise ValueError.

(** What the properties below use of these functions: the values at a
    zero argument that C99 (Annex F) and scipy fix, and that the
    Boltzmann constant is a number. *)
Record ScipyFacts `{Scipy} : Prop := {
  np_cos_zero : forall z, IEEE.fzero z -> np_cos z = 1;
  np_exp_zero : forall z, IEEE.fzero z -> np_exp z = 1;
  float_pow_zero : forall z e, IEEE.fzero z -> (0 <? e) = true -> IEEE.fzero (float_pow z e);
  sps_kv_zero : forall v z, (0 <? v) = true -> IEEE.fzero z -> sps_kv v z = infinity;
  const_k_finite : IEEE.finite const_k;
}.

(** The plasma parameters, the [params] dictionary of the code:
    [params.K_RADAR p] is [p['K_RADAR']].  The key ['kappa'] is present
    only for the kappa distribution. *)
Module params.
Record t : Set := make {
  K_RADAR : float;
  THETA : float;
  w_c : float;
  T : float;
  m : float;
  nu : float;
  kappa : option float;
  vdf : string;
}.
End params.

(** The distribution classes of the [vdfs] module. *)
Inductive vdf_class : Set :=
  | F_MAXWELL | F_KAPPA | F_KAPPA_2 | F_GAUSS_SHELL | F_REAL_DATA.

(** ** Facts about these definitions *)

Lemma enumerate_lookup {A : Type} (l : list A) (i : nat) :
  enumerate l !! i = pair i <$> l !! i.
Proof. apply list_lookup_imap. Qed.

Lemma enumerate_fst {A : Type} (l : list A) : (enumerate l).*1 = seq 0 (length l).
Proof.
  apply list_eq; intros i. rewrite list_lookup_fmap, enumerate_lookup.
  destruct (l !! i) as [x|] eqn:E; simpl.
  - symmetry. apply lookup_seq. split; [done|]. by eapply lookup_lt_Some.
  - symmetry. apply lookup_ge_None. rewrite length_seq. by apply lookup_ge_None.
Qed.

Lemma elem_of_enumerate {A : Type} (l : list A) (u : nat * A) :
  u ∈ enumerate l <-> l !! u.1 = Some u.2.
Proof.
  rewrite list_elem_of_lookup. split.
  - intros [i Hi]. rewrite enumerate_lookup in Hi.
    destruct (l !! i) as [x|] eqn:E; simplify_eq/=. done.
  - intros Hu. exists u.1. rewrite enumerate_lookup, Hu. by destruct u.
Qed.

Lemma enumerate_NoDup_fst {A : Type} (sched : list (nat * A)) (xs : list A) :
  sched ≡ₚ enumerate xs -> NoDup (sched.*1).
Proof. intros ->. rewrite enumerate_fst. apply NoDup_seq. Qed.

Lemma setitem_Ok {A : Type} (i : nat) (x : A) (a : list A) :
  i < length a -> setitem i x a = Ok (<[i := x]> a).
Proof. intros Hi. unfold setitem. by rewrite decide_True. Qed.

Lemma np_binop_same_length {A B C : Type} (f : A -> B -> C) (xs : list A) (ys : list B) :
  length xs = length ys -> np_binop f xs ys = Ok (zip_with f xs ys).
Proof. intros E. unfold np_binop. by rewrite decide_True. Qed.

Lemma simps_same_length `{Scipy} (values x : list float) :
  values <> [] -> length values = length x -> simps values x = Ok (si_simps values x).
Proof. intros Hne E. unfold simps. rewrite decide_True by done. by destruct values. Qed.

Lemma simps_empty `{Scipy} (x : list float) (r : float) : simps [] x <> Ok r.
Proof. unfold simps. by destruct (decide _). Qed.

Lemma simps_mismatch `{Scipy} (values x : list float) :
  length values <> length x -> simps values x = Raise ValueError.
Proof. intros E. unfold simps. by rewrite decide_False. Qed.

Lemma simps_Ok_inv `{Scipy} (values x : list float) (r : float) :
  simps values x = Ok r -> length values = length x /\ values <> [].
Proof. unfold simps. destruct (decide _); [|done]. by destruct values. Qed.

(* ===================================================================== *)
(** * Reference instances, to run the models on concrete inputs *)
(* ===================================================================== *)

(** Short series and tables in place of the compiled libraries, and
    pairs of floats in place of complex128.  They agree with the
    libraries at the zero arguments singled out in [ScipyFacts]; the
    closed examples below are evaluated with them. *)
Module reference.

Definition sin (x : float) : float :=
  let x2 := x * x in
  x * (1 - x2 / 6 * (1 - x2 / 20 * (1 - x2 / 42 * (1 - x2 / 72)))).

Definition cos (x : float) : float :=
  let x2 := x * x in
  1 - x2 / 2 * (1 - x2 / 12 * (1 - x2 / 30 * (1 - x2 / 56))).

Definition exp (x : float) : float :=
  1 + x * (1 + x / 2 * (1 + x / 3 * (1 + x / 4 * (1 + x / 5 * (1 + x / 6))))).

(** [x ** e] at the exponents 2 and 0.5, and at a zero base. *)
Definition pow (x e : float) : float :=
  if e =? 2 then x * x
  else if e =? 0.5 then sqrt x
  else if x =? 0 then (if 0 <? e then 0 else if e =? 0 then 1 else infinity)
  else nan.

(** The Bessel function by its pole at zero and its large-argument form. *)
Definition kv (v z : float) : float :=
  if z =? 0 then infinity
  else if z <? 0 then nan
  else sqrt (0x1.921fb54442d18p+0 / z) * exp (- z).

(** The gamma function at a few integers and half-integers. *)
Definition gamma (x : float) : float :=
  if x =? 1 then 1
  else if x =? 2 then 1
  else if x =? 3 then 2
  else if x =? 2.5 then 0x1.544fa6d47b391p+0
  else if x =? 3.5 then 0x1.a96390899a073p+1
  else nan.

(** Simpson's rule over pairs of intervals, the trapezoid on a last odd
    interval. *)
Fixpoint simpson (values x : list float) : float :=
  match values, x with
  | f0 :: f1 :: ((f2 :: _) as values'), x0 :: _ :: ((x2 :: _) as x') =>
      (x2 - x0) / 6 * (f0 + 4 * f1 + f2) + simpson values' x'
  | [f0; f1], [x0; x1] => (x1 - x0) / 2 * (f0 + f1)
  | _, _ => 0
  end.

Definition scipy : Scipy := {|
  np_sin := sin;
  np_cos := cos;
  np_exp := exp;
  float_pow := pow;
  sps_kv := kv;
  sps_gamma := gamma;
  si_simps := simpson;
  const_k := 0x1.0b0e6d55e647cp-76;
|}.

(** complex128 as a pair (real part, imaginary part). *)
Definition complex : Type := float * float.
Definition c_of_float (x : float) : complex := (x, 0).
Definition c_j : complex := (0, 1).
Definition c_add (a b : complex) : complex := (a.1 + b.1, a.2 + b.2).
Definition c_sub (a b : complex) : complex := (a.1 - b.1, a.2 - b.2).
Definition c_mul (a b : complex) : complex :=
  (a.1 * b.1 - a.2 * b.2, a.1 * b.2 + a.2 * b.1).
Definition c_div (a b : complex) : complex :=
  let d := b.1 * b.1 + b.2 * b.2 in
  ((a.1 * b.1 + a.2 * b.2) / d, (a.2 * b.1 - a.1 * b.2) / d).

(** A quadrature stand-in for [tool.simpson]: the integral of
    [exp(-1j*w*y)] over [0, T_MAX] to first order. *)
Definition tool_simpson (function : string) (w w_c m T Lambda_s T_MAX : float)
    (kappa : option float) : complex :=
  (T_MAX, - (w * T_MAX * T_MAX / 2)).

Lemma scipy_facts : @ScipyFacts scipy.
Proof.
  split.
  - by intros z [-> | ->]%IEEE.fzero_cases.
  - by intros z [-> | ->]%IEEE.fzero_cases.
  - intros z e Hz He. cbn [float_pow scipy]. unfold pow.
    destruct (e =? 2); [by apply IEEE.zero_mul_zero|].
    destruct (e =? 0.5); [by apply IEEE.sqrt_zero|].
    unfold IEEE.fzero, is_zero in Hz. change zero with 0 in Hz.
    by rewrite Hz, He.
  - intros v z _ Hz. cbn [sps_kv scipy]. unfold kv.
    unfold IEEE.fzero, is_zero in Hz. change zero with 0 in Hz. by rewrite Hz.
  - reflexivity.
Qed.

Lemma cos_even (x : float) : cos (- x) = cos x.
Proof. unfold cos. by rewrite IEEE.mul_opp_opp. Qed.

Lemma pow_even (x : float) : pow (- x) 2 = pow x 2.
Proof. unfold pow. change (2 =? 2) with true. cbv iota. apply IEEE.mul_opp_opp. Qed.

(** Two distributions sampled on a grid, in place of the [vdfs] module. *)
Definition f_0 (c : vdf_class) (v : list float) (p : params.t) : list float :=
  match c with
  | F_MAXWELL => (fun vi => exp (- (vi * vi))) <$> v
  | _ => (fun vi => 1 / (1 + vi * vi)) <$> v
  end.

Lemma f_0_length (c : vdf_class) (v : list float) (p : params.t) :
  length (f_0 c v p) = length v.
Proof. destruct c; apply length_fmap. Qed.

(** Parameters of a 1290 MHz radar and of electrons in a 35 microtesla
    field at 1000 K: [K_RADAR = -2 * F0 * 2 * pi / c], [w_c = e * B / m]. *)
Definition electrons (theta : float) (kappa : option float) (vdf : string) : params.t :=
  {| params.K_RADAR := -0x1.b09518fcd4aeep+5;
     params.THETA := theta;
     params.w_c := 0x1.77b978269b80bp+22;
     params.T := 1000;
     params.m := 0x1.279dcc8b6b7edp-100;
     params.nu := 100;
     params.kappa := kappa;
     params.vdf := vdf |}.

End reference.

(* ===================================================================== *)
(** * src/parallelization.py: the outer integral over the frequency grid *)
(* ===================================================================== *)

Module parallelization.
Section integrate.
Context `{Scipy}.

(** numpy's complex128 with the arithmetic of its loops: the promotion
    of a real scalar, [1j], and [+], [-], [*], [/]. *)
Context {complex128 : Type}.
Variable c_of_float : float -> complex128.
Variable c_j : complex128.
Variables c_add c_sub c_mul c_div : complex128 -> complex128 -> complex128.

(** The integrand functions [integrate] is handed, compared by identity,
    and the one it singles out, [intf.kappa_gordeyev]. *)
Context {pyfunction : Type} `{EqDecision pyfunction}.
Variable kappa_gordeyev : pyfunction.

(** [tool.simpson(function, w, w_c, m, T, Lambda_s, T_MAX, kappa)]: the
    quadrature of [function(y) * exp(-1j * w * y)] from 0 to [T_MAX]. *)
Variable tool_simpson :
  pyfunction -> float -> float -> float -> float -> float -> float ->
  option float -> complex128.

(** [cf.w], the frequency grid. *)
Variable cf_w : list float.

(** A work unit, [(index, frequency)]. *)
Abbreviation work_unit := (nat * float)%type.

(** The buffer slot a work unit writes, [index[0]]. *)
Definition slot_of (index : work_unit) : nat := index.1.

(** The module-level [array], shared by the worker processes, together
    with a record, per slot, of the work units that wrote it (newest
    first); the record is bookkeeping of the model, the code has none. *)
Record shared : Type := {
  array : list complex128;
  writers : list (list work_unit);
}.

(** [shared_array(shape)]: a zero-initialised complex128 buffer over
    [2 * shape[0]] shared doubles. *)
Definition shared_array (shape : nat) : list complex128 :=
  replicate shape (c_of_float 0).

(** The state the module is imported into, [array = shared_array((len(cf.w),))],
    with nothing written yet. *)
Definition initial : shared :=
  {| array := shared_array (length cf_w); writers := replicate (length cf_w) [] |}.

(** The write record as it stands when a call of [integrate] begins. *)
Definition fresh (s : shared) : shared :=
  {| array := array s; writers := replicate (length (array s)) [] |}.

Definition parallel (w_c m T Lambda_s T_MAX : float) (function : pyfunction)
    (kappa : option float) (index : work_unit) (s : shared) : res shared :=
  arr ← setitem (slot_of index)
          (tool_simpson function index.2 w_c m T Lambda_s T_MAX kappa) (array s);
  Ok {| array := arr; writers := alter (cons index) (slot_of index) (writers s) |}.

(** One drain of the pool: every work unit of [sched] runs [func] once;
    [sched] lists the units in the order their writes land. *)
Fixpoint pool_imap (func : work_unit -> shared -> res shared)
    (sched : list work_unit) (s : shared) : res shared :=
  match sched with
  | [] => Ok s
  | index :: rest => s' ← func index s; pool_imap func rest s'
  end.

(** [2**(kappa - 1 / 2) * sps.gamma(kappa + 1 / 2)] *)
Definition kappa_norm (kappa : float) : float :=
  float_pow 2 (kappa - 1 / 2) * sps_gamma (kappa + 1 / 2).

(** Lines 35-38: the buffer as post-processing reads it. *)
Definition rescale (function : pyfunction) (kappa : option float)
    (arr : list complex128) : res (list complex128) :=
  if decide (function = kappa_gordeyev) then
    match kappa with
    | Some k => Ok ((fun z => c_div z (c_of_float (kappa_norm k))) <$> arr)
    | None => Raise TypeError
    end
  else Ok arr.

(** Lines 29-34: the pool maps [func] over the work units; [sched] is
    the order in which the pool completes them. *)
Definition dispatch (w_c m T Lambda_s T_MAX : float) (function : pyfunction)
    (kappa : option float) (sched : list work_unit) (s : shared) : res shared :=
  let func := parallel w_c m T Lambda_s T_MAX function kappa in
  pool_imap func sched (fresh s).

(** [integrate]: returns [F] and leaves the shared buffer behind. *)
Definition integrate (w_c m T Lambda_s T_MAX : float) (function : pyfunction)
    (kappa : option float) (sched : list work_unit) (s : shared)
    : res (list complex128 * shared) :=
  s' ← dispatch w_c m T Lambda_s T_MAX function kappa sched s;
  a ← rescale function kappa (array s');
  let jw := (fun w => c_add (c_mul c_j (c_of_float w)) (c_of_float (Lambda_s * w_c))) <$> cf_w in
  jwa ← np_binop c_mul jw a;
  Ok ((fun z => c_sub (c_of_float 1) z) <$> (jwa : list complex128), s').

(** The work units of a call, [idx = [x for x in enumerate(cf.w)]]. *)
Definition idx : list work_unit := enumerate cf_w.

(** ** The pool drain *)

Lemma parallel_Ok (w_c m T Lambda_s T_MAX : float) (function : pyfunction)
    (kappa : option float) (index : work_unit) (s : shared) :
  slot_of index < length (array s) ->
  parallel w_c m T Lambda_s T_MAX function kappa index s
  = Ok {| array := <[slot_of index :=
              tool_simpson function index.2 w_c m T Lambda_s T_MAX kappa]> (array s);
          writers := alter (cons index) (slot_of index) (writers s) |}.
Proof. intros Hi. unfold parallel. by rewrite setitem_Ok. Qed.

(** Work units with distinct in-range slots all run; each one's slot
    holds its quadrature and records it as a writer, every other slot is
    as it was. *)
Lemma pool_imap_writes (w_c m T Lambda_s T_MAX : float) (function : pyfunction)
    (kappa : option float) (sched : list work_unit) :
  forall s : shared,
  NoDup (slot_of <$> sched) ->
  (forall u, u ∈ sched -> slot_of u < length (array s)) ->
  exists s',
    pool_imap (parallel w_c m T Lambda_s T_MAX function kappa) sched s = Ok s' /\
    length (array s') = length (array s) /\
    length (writers s') = length (writers s) /\
    (forall u, u ∈ sched ->
       array s' !! slot_of u
         = Some (tool_simpson function u.2 w_c m T Lambda_s T_MAX kappa) /\
       writers s' !! slot_of u = cons u <$> writers s !! slot_of u) /\
    (forall i, i ∉ slot_of <$> sched ->
       array s' !! i = array s !! i /\ writers s' !! i = writers s !! i).
Proof.
  induction sched as [|u rest IH]; intros s Hnd Hin.
  - exists s. repeat split; try done; by match goal with Hu : _ ∈ [] |- _ => apply elem_of_nil in Hu end.
  - rewrite fmap_cons in Hnd. apply NoDup_cons in Hnd as [Hu Hnd].
    assert (slot_of u < length (array s)) as Hlt by (apply Hin; left).
    set (s1 := {| array := <[slot_of u :=
                     tool_simpson function u.2 w_c m T Lambda_s T_MAX kappa]> (array s);
                  writers := alter (cons u) (slot_of u) (writers s) |}).
    destruct (IH s1 Hnd) as (s' & Hrun & Hla & Hlw & Hsched & Hother).
    { intros u' Hu'. simpl. rewrite length_insert. apply Hin. by right. }
    exists s'. split; [|split; [|split; [|split]]].
    + cbn [pool_imap]. rewrite parallel_Ok by done. exact Hrun.
    + rewrite Hla. simpl. apply length_insert.
    + rewrite Hlw. simpl. apply length_alter.
    + intros u' [->|Hu']%elem_of_cons.
      * destruct (Hother (slot_of u) Hu) as [-> ->]. simpl.
        rewrite list_lookup_insert_eq by done. by rewrite list_lookup_alter_eq.
      * destruct (Hsched u' Hu') as [-> ->]. split; [done|]. simpl.
        rewrite list_lookup_alter_ne; [done|].
        intros E. apply Hu. rewrite E. by apply list_elem_of_fmap_2.
    + intros i Hi. rewrite fmap_cons in Hi. apply not_elem_of_cons in Hi as [Hne Hi].
      destruct (Hother i Hi) as [-> ->]. simpl.
      by rewrite list_lookup_insert_ne, list_lookup_alter_ne.
Qed.

(** Whatever the completion order and the previous contents of the
    buffer, a call leaves the quadrature of every frequency in the slot
    of its index, written by the unit of that index alone. *)
Lemma dispatch_idx (w_c m T Lambda_s T_MAX : float) (function : pyfunction)
    (kappa : option float) (sched : list work_unit) (s : shared) :
  sched ≡ₚ idx ->
  length (array s) = length cf_w ->
  dispatch w_c m T Lambda_s T_MAX function kappa sched s
  = Ok {| array := (fun w => tool_simpson function w w_c m T Lambda_s T_MAX kappa) <$> cf_w;
          writers := (fun u => [u]) <$> idx |}.
Proof.
  intros Hperm Hlen. unfold dispatch.
  assert (forall u, u ∈ sched <-> cf_w !! u.1 = Some u.2) as Hmem.
  { intros u. rewrite Hperm. apply elem_of_enumerate. }
  destruct (pool_imap_writes w_c m T Lambda_s T_MAX function kappa sched (fresh s))
    as (s' & -> & Hla & Hlw & Hsched & _).
  { by eapply enumerate_NoDup_fst. }
  { intros u Hu. simpl. rewrite Hlen. apply Hmem in Hu. by eapply lookup_lt_Some. }
  simpl in Hla, Hlw. rewrite length_replicate in Hlw.
  f_equal. destruct s' as [arr wr]; simpl in *. f_equal.
  - apply list_eq; intros i. rewrite list_lookup_fmap.
    destruct (cf_w !! i) as [w|] eqn:E; simpl.
    + destruct (Hsched (i, w)) as [Ha _]; [by apply Hmem|]. exact Ha.
    + apply lookup_ge_None. rewrite Hla, Hlen. by apply lookup_ge_None.
  - apply list_eq; intros i. rewrite list_lookup_fmap. unfold idx.
    rewrite enumerate_lookup.
    destruct (cf_w !! i) as [w|] eqn:E; simpl.
    + destruct (Hsched (i, w)) as [_ Hw]; [by apply Hmem|].
      etrans; [exact Hw|]. unfold slot_of; simpl.
      rewrite lookup_replicate_2; [done|]. rewrite Hlen. by eapply lookup_lt_Some.
    + apply lookup_ge_None. rewrite Hlw, Hlen. by apply lookup_ge_None.
Qed.

(** The buffer has the length of the grid when the module is imported, and
    every call keeps it so. *)
Lemma initial_length : length (array initial) = length cf_w.
Proof. apply length_replicate. Qed.

Lemma dispatch_keeps_length (w_c m T Lambda_s T_MAX : float) (function : pyfunction)
    (kappa : option float) (sched : list work_unit) (s s' : shared) :
  sched ≡ₚ idx ->
  length (array s) = length cf_w ->
  dispatch w_c m T Lambda_s T_MAX function kappa sched s = Ok s' ->
  length (array s') = length cf_w.
Proof.
  intros Hperm Hlen Hrun. rewrite dispatch_idx in Hrun by done.
  injection Hrun as <-. apply length_fmap.
Qed.

(** ** The post-processing *)

Lemma rescale_length (function : pyfunction) (kappa : option float)
    (arr a : list complex128) :
  rescale function kappa arr = Ok a -> length a = length arr.
Proof.
  unfold rescale. destruct (decide _); [destruct kappa|]; intros; simplify_eq.
  - apply length_fmap.
  - done.
Qed.

(** C1. For every frequency [w] of the grid, at position [i], [integrate]
    returns at position [i] the value [1 - (1j*w + Lambda_s*w_c) * a(w)].
    Here [a(w)] is entry [i] of the buffer as post-processing reads it:
    the quadrature accumulated for [w], divided by
    [2**(kappa - 1/2) * gamma(kappa + 1/2)] when the function is the
    kappa one, and the quadrature itself for every other function.  The
    returned sequence has the length of the grid. *)
Theorem integrate_transform (w_c m T Lambda_s T_MAX : float) (function : pyfunction)
    (kappa : option float) (sched : list work_unit) (s : shared) :
  sched ≡ₚ idx ->
  length (array s) = length cf_w ->
  (function = kappa_gordeyev -> is_Some kappa) ->
  exists (F : list complex128) (s' : shared) (a : list complex128),
    integrate w_c m T Lambda_s T_MAX function kappa sched s = Ok (F, s') /\
    rescale function kappa (array s') = Ok a /\
    length F = length cf_w /\
    forall (i : nat) (w : float), cf_w !! i = Some w ->
      exists ai : complex128,
        array s' !! i = Some (tool_simpson function w w_c m T Lambda_s T_MAX kappa) /\
        a !! i = Some ai /\
        (function = kappa_gordeyev ->
           forall k : float, kappa = Some k ->
             ai = c_div (tool_simpson function w w_c m T Lambda_s T_MAX kappa)
                    (c_of_float (float_pow 2 (k - 1 / 2) * sps_gamma (k + 1 / 2)))) /\
        (function <> kappa_gordeyev ->
           ai = tool_simpson function w w_c m T Lambda_s T_MAX kappa) /\
        F !! i = Some (c_sub (c_of_float 1)
                         (c_mul (c_add (c_mul c_j (c_of_float w))
                                       (c_of_float (Lambda_s * w_c))) ai)).
Proof.
  intros Hperm Hlen Hk. unfold integrate.
  rewrite (dispatch_idx _ _ _ _ _ _ _ _ _ Hperm Hlen). cbn [mbind res_bind array].
  set (arr := (fun w => tool_simpson function w w_c m T Lambda_s T_MAX kappa) <$> cf_w).
  assert (exists a, rescale function kappa arr = Ok a) as [a Ha].
  { unfold rescale. destruct (decide _) as [E|]; [|eauto].
    destruct (Hk E) as [k ->]. eauto. }
  assert (length a = length cf_w) as Hla.
  { rewrite (rescale_length _ _ _ _ Ha). apply length_fmap. }
  rewrite Ha. cbn [mbind res_bind].
  rewrite np_binop_same_length by (by rewrite length_fmap). cbn [mbind res_bind].
  eexists _, _, a. split; [reflexivity|]. split; [exact Ha|]. split.
  - rewrite length_fmap, length_zip_with, length_fmap. lia.
  - intros i w Hw.
    destruct (lookup_lt_is_Some_2 a i) as [ai Hai].
    { rewrite Hla. by eapply lookup_lt_Some. }
    assert (arr !! i = Some (tool_simpson function w w_c m T Lambda_s T_MAX kappa)) as Harr.
    { subst arr. by rewrite list_lookup_fmap, Hw. }
    exists ai. split; [exact Harr|]. split; [done|]. split; [|split].
    + intros Hf k Hkappa. unfold rescale, kappa_norm in Ha.
      rewrite decide_True, Hkappa in Ha by done. injection Ha as <-.
      rewrite list_lookup_fmap, Harr in Hai. by injection Hai as <-.
    + intros Hf. unfold rescale in Ha. rewrite decide_False in Ha by done.
      injection Ha as <-. congruence.
    + rewrite list_lookup_fmap, lookup_zip_with, list_lookup_fmap, Hw, Hai. done.
Qed.

(** C2. The rescaling step divides every buffer entry by
    [2**(kappa - 1/2) * gamma(kappa + 1/2)] when the function handed to
    [integrate] is the kappa one, and hands the buffer on unchanged for
    every other function. *)
Theorem rescale_kappa_only (function : pyfunction) (kappa : option float)
    (arr : list complex128) :
  (function = kappa_gordeyev ->
     forall k : float, kappa = Some k ->
       rescale function kappa arr
       = Ok ((fun z => c_div z (c_of_float (float_pow 2 (k - 1 / 2) * sps_gamma (k + 1 / 2))))
               <$> arr)) /\
  (function <> kappa_gordeyev -> rescale function kappa arr = Ok arr).
Proof.
  unfold rescale, kappa_norm. split.
  - intros -> k ->. by rewrite decide_True.
  - intros Hne. by rewrite decide_False.
Qed.

(** C7. After the pool drain of one call on a grid of [N] frequencies,
    every buffer slot in [0, N) has been written exactly once, by the
    one work unit whose index it is, and holds the quadrature of that
    unit's frequency; and the map from work units to slots is a
    bijection from the units of the call onto [0, N). *)
Theorem partition_completeness (w_c m T Lambda_s T_MAX : float) (function : pyfunction)
    (kappa : option float) (sched : list work_unit) (s : shared) :
  sched ≡ₚ idx ->
  length (array s) = length cf_w ->
  exists s' : shared,
    dispatch w_c m T Lambda_s T_MAX function kappa sched s = Ok s' /\
    length (array s') = length cf_w /\
    length (writers s') = length cf_w /\
    (forall i : nat, i < length cf_w ->
       exists u : work_unit,
         writers s' !! i = Some [u] /\ u ∈ idx /\ slot_of u = i /\
         array s' !! i = Some (tool_simpson function u.2 w_c m T Lambda_s T_MAX kappa)) /\
    (forall u : work_unit, u ∈ idx -> slot_of u < length cf_w) /\
    (forall u1 u2 : work_unit,
       u1 ∈ idx -> u2 ∈ idx -> slot_of u1 = slot_of u2 -> u1 = u2).
Proof.
  intros Hperm Hlen. eexists. split; [by apply dispatch_idx|]. cbn [array writers].
  split; [apply length_fmap|]. split; [unfold idx, enumerate; by rewrite length_fmap, length_imap|].
  split; [|split].
  - intros i Hi. destruct (lookup_lt_is_Some_2 cf_w i Hi) as [w Hw].
    exists (i, w). split; [|split; [|split; [done|]]].
    + unfold idx. by rewrite list_lookup_fmap, enumerate_lookup, Hw.
    + by apply elem_of_enumerate.
    + by rewrite list_lookup_fmap, Hw.
  - intros u Hu%elem_of_enumerate. by eapply lookup_lt_Some.
  - intros [i1 w1] [i2 w2] H1%elem_of_enumerate H2%elem_of_enumerate E.
    unfold slot_of in E; simpl in *. subst i2. congruence.
Qed.

(** C8. Two calls with the same arguments on the same grid return the
    same result (the same sequence, or the same exception), whatever the
    order in which each pool completes its work units and whatever each
    call finds in the buffer. *)
Theorem integrate_deterministic (w_c m T Lambda_s T_MAX : float) (function : pyfunction)
    (kappa : option float) (sched1 sched2 : list work_unit) (s1 s2 : shared) :
  sched1 ≡ₚ idx -> sched2 ≡ₚ idx ->
  length (array s1) = length cf_w -> length (array s2) = length cf_w ->
  integrate w_c m T Lambda_s T_MAX function kappa sched1 s1
  = integrate w_c m T Lambda_s T_MAX function kappa sched2 s2.
Proof.
  intros Hp1 Hp2 Hl1 Hl2. unfold integrate.
  by rewrite (dispatch_idx _ _ _ _ _ _ _ _ _ Hp1 Hl1), (dispatch_idx _ _ _ _ _ _ _ _ _ Hp2 Hl2).
Qed.

(** ** More on [integrate]: what it raises *)

Lemma pool_imap_IndexError (w_c m T Lambda_s T_MAX : float) (function : pyfunction)
    (kappa : option float) (sched : list work_unit) :
  forall s : shared,
  (exists u, u ∈ sched /\ length (array s) <= slot_of u) ->
  pool_imap (parallel w_c m T Lambda_s T_MAX function kappa) sched s = Raise IndexError.
Proof.
  induction sched as [|u rest IH]; intros s (u0 & Hin & Hge).
  - by apply elem_of_nil in Hin.
  - cbn [pool_imap]. destruct (decide (slot_of u < length (array s))) as [Hlt|Hnlt].
    + rewrite parallel_Ok by done. cbn [mbind res_bind]. apply IH.
      exists u0. cbn [array]. rewrite length_insert. split; [|done].
      apply elem_of_cons in Hin as [->|Hin]; [lia|done].
    + unfold parallel, setitem. by rewrite decide_False.
Qed.

(** X1. Handed the kappa function without a shape parameter, [integrate]
    raises TypeError: after the pool has run every work unit, line 36
    subtracts from [None]. *)
Theorem integrate_kappa_without_shape (w_c m T Lambda_s T_MAX : float)
    (sched : list work_unit) (s : shared) :
  sched ≡ₚ idx ->
  length (array s) = length cf_w ->
  integrate w_c m T Lambda_s T_MAX kappa_gordeyev None sched s = Raise TypeError /\
  exists s' : shared,
    dispatch w_c m T Lambda_s T_MAX kappa_gordeyev None sched s = Ok s'.
Proof.
  intros Hperm Hlen. unfold integrate.
  rewrite (dispatch_idx _ _ _ _ _ _ _ _ _ Hperm Hlen). split; [|eauto].
  cbn [mbind res_bind array]. unfold rescale. by rewrite decide_True.
Qed.

(** X2. On a buffer shorter than the frequency grid, [integrate] raises
    IndexError, whatever the order in which the pool takes the work
    units: the unit of the first frequency past the buffer cannot write. *)
Theorem integrate_buffer_too_short (w_c m T Lambda_s T_MAX : float)
    (function : pyfunction) (kappa : option float)
    (sched : list work_unit) (s : shared) :
  sched ≡ₚ idx ->
  length (array s) < length cf_w ->
  integrate w_c m T Lambda_s T_MAX function kappa sched s = Raise IndexError.
Proof.
  intros Hperm Hlen. unfold integrate, dispatch.
  rewrite pool_imap_IndexError; [done|].
  destruct (lookup_lt_is_Some_2 cf_w (length (array s)) Hlen) as [w Hw].
  exists (length (array s), w). split; [|done].
  rewrite Hperm. by apply elem_of_enumerate.
Qed.

End integrate.

(** ** A reference run: two frequencies, the second completed first *)

Lemma integrate_transform_witness :
  exists (F : list reference.complex) (s' : shared) (a : list reference.complex),
    integrate (H := reference.scipy) reference.c_of_float reference.c_j
      reference.c_add reference.c_sub reference.c_mul reference.c_div
      "kappa_gordeyev" reference.tool_simpson [1; 2]
      10000 1 1000 0 0.5 "kappa_gordeyev" (Some 3) [(1%nat, 2); (0%nat, 1)]
      (initial reference.c_of_float [1; 2]) = Ok (F, s') /\
    rescale (H := reference.scipy) reference.c_of_float reference.c_div
      "kappa_gordeyev" "kappa_gordeyev" (Some 3) (array s') = Ok a /\
    length F = length [1; 2] /\
    forall (i : nat) (w : float), [1; 2] !! i = Some w ->
      exists ai : reference.complex,
        array s' !! i
        = Some (reference.tool_simpson "kappa_gordeyev" w 10000 1 1000 0 0.5 (Some 3)) /\
        a !! i = Some ai /\
        ("kappa_gordeyev" = "kappa_gordeyev" ->
           forall k : float, Some 3 = Some k ->
             ai = reference.c_div
                    (reference.tool_simpson "kappa_gordeyev" w 10000 1 1000 0 0.5 (Some 3))
                    (reference.c_of_float
                       (reference.pow 2 (k - 1 / 2) * reference.gamma (k + 1 / 2)))) /\
        ("kappa_gordeyev" <> "kappa_gordeyev" ->
           ai = reference.tool_simpson "kappa_gordeyev" w 10000 1 1000 0 0.5 (Some 3)) /\
        F !! i = Some (reference.c_sub (reference.c_of_float 1)
                         (reference.c_mul
                            (reference.c_add (reference.c_mul reference.c_j (reference.c_of_float w))
                                             (reference.c_of_float (0 * 10000))) ai)).
Proof.
  apply (integrate_transform (H := reference.scipy)).
  - apply perm_swap.
  - reflexivity.
  - intros _. exists 3. reflexivity.
Defined.

Lemma partition_completeness_witness :
  exists s' : shared,
    dispatch (complex128 := reference.complex) reference.tool_simpson
      10000 1 1000 0 0.5 "maxwell_gordeyev" None [(1%nat, 2); (0%nat, 1)]
      (initial reference.c_of_float [1; 2]) = Ok s' /\
    length (array s') = length [1; 2] /\
    length (writers s') = length [1; 2] /\
    (forall i : nat, i < length [1; 2] ->
       exists u : nat * float,
         writers s' !! i = Some [u] /\ u ∈ idx [1; 2] /\ slot_of u = i /\
         array s' !! i
         = Some (reference.tool_simpson "maxwell_gordeyev" u.2 10000 1 1000 0 0.5 None)) /\
    (forall u : nat * float, u ∈ idx [1; 2] -> slot_of u < length [1; 2]) /\
    (forall u1 u2 : nat * float,
       u1 ∈ idx [1; 2] -> u2 ∈ idx [1; 2] -> slot_of u1 = slot_of u2 -> u1 = u2).
Proof.
  apply (partition_completeness (complex128 := reference.complex)).
  - apply perm_swap.
  - reflexivity.
Defined.

Lemma integrate_deterministic_witness :
  integrate (H := reference.scipy) reference.c_of_float reference.c_j
    reference.c_add reference.c_sub reference.c_mul reference.c_div
    "kappa_gordeyev" reference.tool_simpson [1; 2]
    10000 1 1000 0 0.5 "kappa_gordeyev" (Some 3) [(1%nat, 2); (0%nat, 1)]
    (initial reference.c_of_float [1; 2])
  = integrate (H := reference.scipy) reference.c_of_float reference.c_j
      reference.c_add reference.c_sub reference.c_mul reference.c_div
      "kappa_gordeyev" reference.tool_simpson [1; 2]
      10000 1 1000 0 0.5 "kappa_gordeyev" (Some 3) [(0%nat, 1); (1%nat, 2)]
      {| array := [(7, 7); (8, 8)]; writers := [[(0%nat, 1)]; [(1%nat, 2)]] |}.
Proof.
  apply (integrate_deterministic (H := reference.scipy)).
  - apply perm_swap.
  - reflexivity.
  - reflexivity.
  - reflexivity.
Defined.

Lemma integrate_kappa_without_shape_witness :
  integrate (H := reference.scipy) reference.c_of_float reference.c_j
    reference.c_add reference.c_sub reference.c_mul reference.c_div
    "kappa_gordeyev" reference.tool_simpson [1; 2]
    10000 1 1000 0 0.5 "kappa_gordeyev" None [(1%nat, 2); (0%nat, 1)]
    (initial reference.c_of_float [1; 2]) = Raise TypeError /\
  exists s' : shared,
    dispatch (complex128 := reference.complex) reference.tool_simpson
      10000 1 1000 0 0.5 "kappa_gordeyev" None [(1%nat, 2); (0%nat, 1)]
      (initial reference.c_of_float [1; 2]) = Ok s'.
Proof.
  apply (integrate_kappa_without_shape (H := reference.scipy)).
  - apply perm_swap.
  - reflexivity.
Defined.

Lemma integrate_buffer_too_short_witness :
  integrate (H := reference.scipy) reference.c_of_float reference.c_j
    reference.c_add reference.c_sub reference.c_mul reference.c_div
    "kappa_gordeyev" reference.tool_simpson [1; 2]
    10000 1 1000 0 0.5 "maxwell_gordeyev" None [(1%nat, 2); (0%nat, 1)]
    {| array := [(0, 0)]; writers := [[]] |} = Raise IndexError.
Proof.
  apply (integrate_buffer_too_short (H := reference.scipy)).
  - apply perm_swap.
  - vm_compute. lia.
Defined.

End parallelization.

(* ===================================================================== *)
(** * src/program/utils/parallel/v_int_parallel.py: the velocity integral *)
(* ===================================================================== *)

Module v_int_parallel.
Section integrand.
Context `{Scipy}.

Abbreviation work_unit := (nat * float)%type.

(** [shared_array(shape)]: [shape[0]] zero-initialised shared doubles. *)
Definition shared_array (shape : nat) : list float := replicate shape 0.

(** The function [p] of Mace [2003]. *)
Definition p (y : float) (params : params.t) : float :=
  let k_perp := params.K_RADAR params * np_sin (params.THETA params) in
  let k_par := params.K_RADAR params * np_cos (params.THETA params) in
  float_pow
    (2 * float_pow k_perp 2 / float_pow (params.w_c params) 2
       * (1 - np_cos (y * params.w_c params))
     + float_pow k_par 2 * float_pow y 2)
    0.5.

(** The velocity integral at one sample [y]: Simpson's rule over [v] of
    [v * sin(p(y) * v) * f]. *)
Definition v_int_integrand (y : float) (params : params.t) (v f : list float)
    : res float :=
  let sin := (fun vi => np_sin (p y params * vi)) <$> v in
  v_sin ← np_binop mul v sin;
  val ← np_binop mul v_sin f;
  simps val v.

(** One work unit: [array[index[0]] = v_int_integrand(index[1], params, v, f)]. *)
Definition parallel (params : params.t) (v f : list float) (index : work_unit)
    (array : list float) : res (list float) :=
  r ← v_int_integrand index.2 params v f;
  setitem index.1 r array.

(** [pool.map(func, idx)]: every work unit of [sched] runs [func] once, in
    the order in which their writes land. *)
Fixpoint pool_map (func : work_unit -> list float -> res (list float))
    (sched : list work_unit) (array : list float) : res (list float) :=
  match sched with
  | [] => Ok array
  | index :: rest => array' ← func index array; pool_map func rest array'
  end.

(** [integrand]: [sched] is an order of the work units
    [idx = set(enumerate(y))]; what is returned is the module-level
    [array] itself, here its contents when the call returns. *)
Definition integrand (y : list float) (params : params.t) (v f : list float)
    (sched : list work_unit) (array : list float) : res (list float) :=
  let func := parallel params v f in
  pool_map func sched array.

(** The value of [v_int_integrand] when it returns. *)
Definition velocity_integral (y : float) (params : params.t) (v f : list float) : float :=
  si_simps
    (zip_with mul (zip_with mul v ((fun vi => np_sin (p y params * vi)) <$> v)) f) v.

Lemma v_int_integrand_Ok (y : float) (params : params.t) (v f : list float) :
  v <> [] ->
  length f = length v ->
  v_int_integrand y params v f = Ok (velocity_integral y params v f).
Proof.
  intros Hv Hf. unfold v_int_integrand, velocity_integral.
  rewrite np_binop_same_length by (by rewrite length_fmap). cbn [mbind res_bind].
  assert (length (zip_with mul v ((fun vi => np_sin (p y params * vi)) <$> v)) = length v) as Hl.
  { rewrite length_zip_with, length_fmap. lia. }
  rewrite np_binop_same_length by congruence. cbn [mbind res_bind].
  apply simps_same_length.
  - destruct v as [|v0 v']; [done|]. by destruct f.
  - rewrite length_zip_with. lia.
Qed.

(** On an empty velocity grid the Simpson rule has nothing to integrate:
    [v_int_integrand] does not return. *)
Lemma v_int_integrand_empty_grid (y : float) (params : params.t) (f : list float) (r : float) :
  v_int_integrand y params [] f <> Ok r.
Proof.
  destruct f as [|f0 [|f1 f']]; intros E; vm_compute in E; discriminate E.
Qed.

Lemma parallel_velocity_Ok (params : params.t) (v f : list float) (index : work_unit)
    (array : list float) :
  v <> [] ->
  length f = length v ->
  index.1 < length array ->
  parallel params v f index array
  = Ok (<[index.1 := velocity_integral index.2 params v f]> array).
Proof.
  intros Hv Hf Hi. unfold parallel. rewrite v_int_integrand_Ok by done.
  cbn [mbind res_bind]. by apply setitem_Ok.
Qed.

Lemma pool_map_writes (params : params.t) (v f : list float) (sched : list work_unit) :
  v <> [] ->
  length f = length v ->
  forall array : list float,
  NoDup (sched.*1) ->
  (forall u, u ∈ sched -> u.1 < length array) ->
  exists array',
    pool_map (parallel params v f) sched array = Ok array' /\
    length array' = length array /\
    (forall u, u ∈ sched -> array' !! u.1 = Some (velocity_integral u.2 params v f)) /\
    (forall i, i ∉ sched.*1 -> array' !! i = array !! i).
Proof.
  intros Hv Hf. induction sched as [|u rest IH]; intros array Hnd Hin.
  - exists array. split; [done|]. split; [done|]. split; [|done].
    by intros u Hu%elem_of_nil.
  - rewrite fmap_cons in Hnd. apply NoDup_cons in Hnd as [Hu Hnd].
    assert (u.1 < length array) as Hlt by (apply Hin; left).
    destruct (IH (<[u.1 := velocity_integral u.2 params v f]> array) Hnd)
      as (array' & Hrun & Hla & Hsched & Hother).
    { intros u' Hu'. rewrite length_insert. apply Hin. by right. }
    exists array'. split; [|split; [|split]].
    + cbn [pool_map]. rewrite parallel_velocity_Ok by done. exact Hrun.
    + rewrite Hla. apply length_insert.
    + intros u' [->|Hu']%elem_of_cons.
      * rewrite (Hother _ Hu). by apply list_lookup_insert_eq.
      * by apply Hsched.
    + intros i Hi. rewrite fmap_cons in Hi. apply not_elem_of_cons in Hi as [Hne Hi].
      rewrite (Hother i Hi). by apply list_lookup_insert_ne.
Qed.

(** The buffer a call leaves: the velocity integral of every sample in
    the slot of its index, the slots past the samples as they were. *)
Lemma integrand_closed_form (y : list float) (params : params.t) (v f : list float)
    (sched : list work_unit) (array : list float) :
  sched ≡ₚ enumerate y ->
  length y <= length array ->
  v <> [] ->
  length f = length v ->
  integrand y params v f sched array
  = Ok (((fun yi => velocity_integral yi params v f) <$> y) ++ drop (length y) array).
Proof.
  intros Hperm Hlen Hv Hf. unfold integrand.
  assert (forall u, u ∈ sched <-> y !! u.1 = Some u.2) as Hmem.
  { intros u. rewrite Hperm. apply elem_of_enumerate. }
  destruct (pool_map_writes params v f sched Hv Hf array)
    as (array' & -> & Hla & Hsched & Hother).
  { by eapply enumerate_NoDup_fst. }
  { intros u Hu%Hmem. apply lookup_lt_Some in Hu. lia. }
  f_equal. apply list_eq; intros i.
  destruct (y !! i) as [yi|] eqn:E.
  - rewrite lookup_app_l by (rewrite length_fmap; by eapply lookup_lt_Some).
    rewrite list_lookup_fmap, E. apply (Hsched (i, yi)). by apply Hmem.
  - apply lookup_ge_None in E.
    rewrite lookup_app_r by (by rewrite length_fmap).
    rewrite length_fmap, lookup_drop, Hother.
    + f_equal. lia.
    + rewrite Hperm, enumerate_fst, elem_of_seq. lia.
Qed.

(** A pool that returns has written inside the buffer only, and, if it
    had any unit to run, on a velocity grid that is not empty. *)
Lemma pool_map_Ok_inv (params : params.t) (v f : list float) (sched : list work_unit) :
  forall array array' : list float,
  pool_map (parallel params v f) sched array = Ok array' ->
  (forall u, u ∈ sched -> u.1 < length array) /\ length array' = length array /\
  (sched <> [] -> v <> []).
Proof.
  induction sched as [|u rest IH]; intros array array' Hrun.
  - injection Hrun as <-. split; [|done]. by intros u Hu%elem_of_nil.
  - cbn [pool_map] in Hrun.
    destruct (parallel params v f u array) as [a1|e] eqn:E; [|discriminate].
    cbn [mbind res_bind] in Hrun.
    unfold parallel in E.
    destruct (v_int_integrand u.2 params v f) as [r|e] eqn:Er; [|discriminate].
    cbn [mbind res_bind] in E. unfold setitem in E.
    destruct (decide (u.1 < length array)) as [Hlt|]; [|discriminate].
    injection E as <-.
    destruct (IH _ _ Hrun) as (Hin & Hlen & _). rewrite length_insert in Hin, Hlen.
    split; [|split; [done|]].
    + intros u' [->|Hu']%elem_of_cons; [done|by apply Hin].
    + intros _ ->. by apply v_int_integrand_empty_grid in Er.
Qed.

Lemma integrand_Ok_length (y : list float) (params : params.t) (v f : list float)
    (sched : list work_unit) (array array' : list float) :
  sched ≡ₚ enumerate y ->
  integrand y params v f sched array = Ok array' ->
  length y <= length array.
Proof.
  intros Hperm Hrun. apply pool_map_Ok_inv in Hrun as [Hin _].
  destruct (decide (length y <= length array)) as [|Hgt]; [done|].
  destruct (lookup_lt_is_Some_2 y (length array)) as [yi Hyi]; [lia|].
  assert ((length array, yi) ∈ sched) as Hu
    by (rewrite Hperm; by apply elem_of_enumerate).
  apply Hin in Hu. simpl in Hu. lia.
Qed.

Lemma integrand_Ok_grid (y : list float) (params : params.t) (v f : list float)
    (sched : list work_unit) (array array' : list float) :
  sched ≡ₚ enumerate y ->
  y <> [] ->
  integrand y params v f sched array = Ok array' ->
  v <> [].
Proof.
  intros Hperm Hy Hrun. apply pool_map_Ok_inv in Hrun as (_ & _ & Hv).
  apply Hv. intros ->. apply Permutation_nil_l in Hperm.
  destruct y; [done|discriminate Hperm].
Qed.

Lemma pool_map_IndexError (params : params.t) (v f : list float) (sched : list work_unit) :
  v <> [] ->
  length f = length v ->
  forall array : list float,
  (exists u, u ∈ sched /\ length array <= u.1) ->
  pool_map (parallel params v f) sched array = Raise IndexError.
Proof.
  intros Hv Hf. induction sched as [|u rest IH]; intros array (u0 & Hin & Hge).
  - by apply elem_of_nil in Hin.
  - cbn [pool_map]. destruct (decide (u.1 < length array)) as [Hlt|Hnlt].
    + rewrite parallel_velocity_Ok by done. cbn [mbind res_bind]. apply IH.
      exists u0. rewrite length_insert. split; [|done].
      apply elem_of_cons in Hin as [->|Hin]; [lia|done].
    + unfold parallel. rewrite v_int_integrand_Ok by done. cbn [mbind res_bind].
      unfold setitem. by rewrite decide_False.
Qed.

Lemma integrand_IndexError (y : list float) (params : params.t)
    (v f : list float) (sched : list work_unit) (array : list float) :
  sched ≡ₚ enumerate y ->
  length array < length y ->
  v <> [] ->
  length f = length v ->
  integrand y params v f sched array = Raise IndexError.
Proof.
  intros Hperm Hlen Hv Hf. unfold integrand. apply pool_map_IndexError; [done..|].
  destruct (lookup_lt_is_Some_2 y (length array) Hlen) as [yi Hyi].
  exists (length array, yi). split; [|done].
  rewrite Hperm. by apply elem_of_enumerate.
Qed.

(** C3. For every sample [yi] of [y], at position [i], the buffer that
    [integrand] returns holds at position [i] Simpson's rule over the
    velocity grid [v] of [v * sin(p(yi) * v) * f], with
    [p(yi) = (2*k_perp**2/w_c**2 * (1 - cos(yi*w_c)) + k_par**2 * yi**2)**.5],
    [k_perp = K_RADAR*sin(THETA)] and [k_par = K_RADAR*cos(THETA)];
    this for samples that fit the buffer and a distribution sampled on
    a velocity grid that is not empty, in whatever order the pool
    completes the units. *)
Theorem integrand_simpson_per_sample (y : list float) (params : params.t)
    (v f : list float) (sched : list work_unit) (array : list float) :
  sched ≡ₚ enumerate y ->
  length y <= length array ->
  v <> [] ->
  length f = length v ->
  exists array' : list float,
    integrand y params v f sched array = Ok array' /\
    length array' = length array /\
    forall (i : nat) (yi : float), y !! i = Some yi ->
      let k_perp := params.K_RADAR params * np_sin (params.THETA params) in
      let k_par := params.K_RADAR params * np_cos (params.THETA params) in
      let p_yi :=
        float_pow
          (2 * float_pow k_perp 2 / float_pow (params.w_c params) 2
             * (1 - np_cos (yi * params.w_c params))
           + float_pow k_par 2 * float_pow yi 2)
          0.5 in
      v_int_integrand yi params v f
      = Ok (si_simps
              (zip_with mul (zip_with mul v ((fun vi => np_sin (p_yi * vi)) <$> v)) f)
              v) /\
      array' !! i
      = Some (si_simps
                (zip_with mul (zip_with mul v ((fun vi => np_sin (p_yi * vi)) <$> v)) f)
                v).
Proof.
  intros Hperm Hlen Hv Hf. eexists. split; [by apply integrand_closed_form|]. split.
  - rewrite length_app, length_fmap, length_drop. lia.
  - intros i yi Hy. cbv zeta. split; [by apply v_int_integrand_Ok|].
    rewrite lookup_app_l by (rewrite length_fmap; by eapply lookup_lt_Some).
    by rewrite list_lookup_fmap, Hy.
Qed.

(** ** More on [integrand]: the buffer it returns, and what it raises *)

(** X3. What [integrand] returns is the whole module-level buffer, not
    an array of the length of [y]: with fewer samples than slots, the
    slots past the samples come back holding whatever they held before
    the call (the velocity grid not being empty). *)
Theorem integrand_returns_whole_buffer (y : list float) (params : params.t)
    (v f : list float) (sched : list work_unit) (array : list float) :
  sched ≡ₚ enumerate y ->
  length y <= length array ->
  v <> [] ->
  length f = length v ->
  exists array' : list float,
    integrand y params v f sched array = Ok array' /\
    length array' = length array /\
    forall i : nat, length y <= i -> array' !! i = array !! i.
Proof.
  intros Hperm Hlen Hv Hf. eexists. split; [by apply integrand_closed_form|]. split.
  - rewrite length_app, length_fmap, length_drop. lia.
  - intros i Hi. rewrite lookup_app_r by (by rewrite length_fmap).
    rewrite length_fmap, lookup_drop. f_equal. lia.
Qed.

(** X4. With more samples than the buffer has slots, [integrand] raises
    IndexError, whatever the order in which the pool takes the units
    (the distribution being sampled on a velocity grid that is not
    empty, so that every quadrature returns). *)
Theorem integrand_buffer_too_short (y : list float) (params : params.t)
    (v f : list float) (sched : list work_unit) (array : list float) :
  sched ≡ₚ enumerate y ->
  length array < length y ->
  v <> [] ->
  length f = length v ->
  integrand y params v f sched array = Raise IndexError.
Proof.
  intros Hperm Hlen Hv Hf. unfold integrand. apply pool_map_IndexError; [done..|].
  destruct (lookup_lt_is_Some_2 y (length array) Hlen) as [yi Hyi].
  exists (length array, yi). split; [|done].
  rewrite Hperm. by apply elem_of_enumerate.
Qed.

(** X5. On a velocity grid that is not empty, [v_int_integrand] returns
    Simpson's rule of [v * sin * f] when the distribution samples [f]
    have the length of the grid, and of [v * sin] times the one value
    when [f] is a single value, broadcast over the grid; any other
    length of [f] raises ValueError (in [v * sin * f], or in [simps]
    when it is the grid that has a single point); on an empty grid it
    does not return. *)
Theorem v_int_integrand_shapes (y : float) (params : params.t) (v f : list float) :
  (v <> [] -> length f = length v ->
     v_int_integrand y params v f
     = Ok (si_simps
             (zip_with mul (zip_with mul v ((fun vi => np_sin (p y params * vi)) <$> v)) f)
             v)) /\
  (v <> [] -> forall f0 : float, f = [f0] ->
     v_int_integrand y params v f
     = Ok (si_simps
             (map (fun x => x * f0)
                (zip_with mul v ((fun vi => np_sin (p y params * vi)) <$> v)))
             v)) /\
  (length f <> length v -> length f <> 1%nat ->
     v_int_integrand y params v f = Raise ValueError) /\
  (v = [] -> forall r : float, v_int_integrand y params v f <> Ok r).
Proof.
  set (sin := (fun vi => np_sin (p y params * vi)) <$> v).
  assert (length (zip_with mul v sin) = length v) as Hl.
  { subst sin. rewrite length_zip_with, length_fmap. lia. }
  assert (np_binop mul v sin = Ok (zip_with mul v sin)) as Hvs.
  { apply np_binop_same_length. subst sin. by rewrite length_fmap. }
  split; [|split; [|split]].
  - intros Hv Hf. by apply v_int_integrand_Ok.
  - intros Hv f0 ->. unfold v_int_integrand. fold sin. rewrite Hvs. cbn [mbind res_bind].
    assert (np_binop mul (zip_with mul v sin) [f0]
            = Ok (map (fun x => x * f0) (zip_with mul v sin))) as ->.
    { unfold np_binop. destruct (decide _) as [E|E].
      - by destruct (zip_with mul v sin) as [|x [|]].
      - by destruct (zip_with mul v sin) as [|x [|x' l]]. }
    cbn [mbind res_bind]. apply simps_same_length; [|by rewrite length_map].
    destruct (zip_with mul v sin); [|done]. by destruct v.
  - intros Hne Hn1. unfold v_int_integrand. fold sin. rewrite Hvs. cbn [mbind res_bind].
    unfold np_binop. rewrite decide_False by lia.
    destruct (zip_with mul v sin) as [|x [|x' l]] eqn:E; simpl in Hl.
    + destruct f as [|f0 [|f1 f']]; simpl in *; try lia. done.
    + cbn [mbind res_bind]. unfold simps. rewrite decide_False; [done|].
      rewrite length_map. lia.
    + destruct f as [|f0 [|f1 f']]; simpl in *; try lia; done.
  - intros -> r. apply v_int_integrand_empty_grid.
Qed.

(** X6. [p] vanishes at [y = 0]: for a finite gyrofrequency and finite
    coefficients [2*k_perp**2/w_c**2] and [k_par**2], [p(y)] compares
    equal to zero at a sample that does. *)
Theorem p_at_zero (y : float) (params : params.t) :
  ScipyFacts ->
  IEEE.finite (params.w_c params) ->
  IEEE.finite (2 * float_pow (params.K_RADAR params * np_sin (params.THETA params)) 2
               / float_pow (params.w_c params) 2) ->
  IEEE.finite (float_pow (params.K_RADAR params * np_cos (params.THETA params)) 2) ->
  (y =? 0) = true ->
  (p y params =? 0) = true.
Proof.
  intros Hlib Hw Hc1 Hc2 Hy. unfold p. cbv zeta.
  apply (float_pow_zero Hlib); [|reflexivity].
  apply IEEE.zero_add_zero.
  - apply IEEE.mul_zero_r; [done|].
    rewrite (np_cos_zero Hlib (y * params.w_c params)) by (by apply IEEE.mul_zero_l).
    apply IEEE.one_sub_one.
  - apply IEEE.mul_zero_r; [done|]. by apply (float_pow_zero Hlib).
Qed.

End integrand.

(** A reference run: three samples, completed out of order. *)
Lemma integrand_simpson_per_sample_witness :
  let params := params.make 2 0.5 4 1000 1 0 None "maxwell" in
  let y := [0; 0.5; 1] in
  let v := [0; 1; 2] in
  let f := [1; 0.5; 0.25] in
  exists array' : list float,
    integrand (H := reference.scipy) y params v f [(2%nat, 1); (0%nat, 0); (1%nat, 0.5)]
      (shared_array 3) = Ok array' /\
    length array' = length (shared_array 3) /\
    forall (i : nat) (yi : float), y !! i = Some yi ->
      let k_perp := params.K_RADAR params * reference.sin (params.THETA params) in
      let k_par := params.K_RADAR params * reference.cos (params.THETA params) in
      let p_yi :=
        reference.pow
          (2 * reference.pow k_perp 2 / reference.pow (params.w_c params) 2
             * (1 - reference.cos (yi * params.w_c params))
           + reference.pow k_par 2 * reference.pow yi 2)
          0.5 in
      v_int_integrand (H := reference.scipy) yi params v f
      = Ok (reference.simpson
              (zip_with mul (zip_with mul v ((fun vi => reference.sin (p_yi * vi)) <$> v)) f)
              v) /\
      array' !! i
      = Some (reference.simpson
                (zip_with mul (zip_with mul v ((fun vi => reference.sin (p_yi * vi)) <$> v)) f)
                v).
Proof.
  apply (integrand_simpson_per_sample (H := reference.scipy)).
  - exact (Permutation_cons_append [(0%nat, 0); (1%nat, 0.5)] (2%nat, 1)).
  - vm_compute. lia.
  - discriminate.
  - reflexivity.
Defined.

Lemma integrand_returns_whole_buffer_witness :
  exists array' : list float,
    integrand (H := reference.scipy) [0; 0.5] (reference.electrons 0.5 None "maxwell")
      [0; 1; 2] [1; 0.5; 0.25] [(1%nat, 0.5); (0%nat, 0)] [7; 8; 9] = Ok array' /\
    length array' = length [7; 8; 9] /\
    forall i : nat, length [0; 0.5] <= i -> array' !! i = [7; 8; 9] !! i.
Proof.
  apply (integrand_returns_whole_buffer (H := reference.scipy)).
  - apply perm_swap.
  - vm_compute. lia.
  - discriminate.
  - reflexivity.
Defined.

Lemma integrand_buffer_too_short_witness :
  integrand (H := reference.scipy) [0; 0.5] (reference.electrons 0.5 None "maxwell")
    [0; 1; 2] [1; 0.5; 0.25] [(1%nat, 0.5); (0%nat, 0)] [7] = Raise IndexError.
Proof.
  apply (integrand_buffer_too_short (H := reference.scipy)).
  - apply perm_swap.
  - vm_compute. lia.
  - discriminate.
  - reflexivity.
Defined.

Lemma p_at_zero_witness :
  (p (H := reference.scipy) 0 (reference.electrons 0.5 None "maxwell") =? 0) = true.
Proof.
  apply (p_at_zero (H := reference.scipy)).
  - exact reference.scipy_facts.
  - reflexivity.
  - reflexivity.
  - reflexivity.
  - reflexivity.
Defined.

End v_int_parallel.

(* ===================================================================== *)
(** * src/program/utils/integrand_functions.py: the integrands *)
(* ===================================================================== *)

Module integrand_functions.

(** ** [INT_KAPPA]: the kappa distribution of Mace (2003) *)

Module INT_KAPPA.
Section kappa.
Context `{Scipy}.

(** The attributes of an instance; [params] is [None] for the empty
    dictionary of [__init__], [Z] and [Kn] are [None] while they still
    hold the type [float]. *)
Record t : Type := {
  y : list float;
  params : option params.t;
  Z : option (list float);
  Kn : option (list float);
}.

Definition __init__ : t := {| y := []; params := None; Z := None; Kn := None |}.

(** [self.params['kappa']] and the other keys. *)
Definition lookup_params (self : t) : res (params.t * float) :=
  match params self with
  | None => Raise KeyError
  | Some p =>
      match params.kappa p with
      | None => Raise KeyError
      | Some kappa => Ok (p, kappa)
      end
  end.

(** Line 63. *)
Definition theta_2 (p : params.t) (kappa : float) : float :=
  2 * ((kappa - 3 / 2) / kappa) * params.T p * const_k / params.m p.

(** Lines 64-67 at one sample. *)
Definition Z_at (p : params.t) (kappa : float) (y : float) : float :=
  float_pow (2 * kappa) (1 / 2) *
  float_pow
    (float_pow (params.K_RADAR p) 2 * float_pow (np_sin (params.THETA p)) 2
       * theta_2 p kappa / float_pow (params.w_c p) 2
       * (1 - np_cos (params.w_c p * y))
     + 1 / 2 * float_pow (params.K_RADAR p) 2 * float_pow (np_cos (params.THETA p)) 2
       * theta_2 p kappa * float_pow y 2)
    (1 / 2).

(** Line 69 at one sample: [Kn[Kn == np.inf] = 1]. *)
Definition clamp (kn : float) : float := if kn =? infinity then 1 else kn.

Definition z_func (self : t) : res t :=
  '(p, kappa) ← lookup_params self;
  let Zs := Z_at p kappa <$> y self in
  let Kns := sps_kv (kappa + 1 / 2) <$> Zs in
  Ok {| y := y self; params := params self; Z := Some Zs; Kn := Some (clamp <$> Kns) |}.

Definition initialize (self : t) (y : list float) (params : params.t) : res t :=
  z_func {| y := y; params := Some params; Z := Z self; Kn := Kn self |}.

(** Line 72: [Z**(kappa + .5) * Kn * exp(-y * nu)]. *)
Definition integrand (self : t) : res (list float) :=
  '(p, kappa) ← lookup_params self;
  Zs ← from_option Ok (Raise TypeError) (Z self);
  Kns ← from_option Ok (Raise TypeError) (Kn self);
  ZK ← np_binop mul ((fun z => float_pow z (kappa + 0.5)) <$> Zs) Kns;
  np_binop mul ZK ((fun y => np_exp (- y * params.nu p)) <$> y self).

(** The instance that [initialize] leaves, and what [integrand] then
    returns. *)
Definition initialized (ys : list float) (p : params.t) (kappa : float) : t :=
  {| y := ys; params := Some p;
     Z := Some (Z_at p kappa <$> ys);
     Kn := Some (clamp <$> (sps_kv (kappa + 1 / 2) <$> (Z_at p kappa <$> ys))) |}.

Lemma initialize_Ok (ys : list float) (p : params.t) (kappa : float) :
  params.kappa p = Some kappa ->
  initialize __init__ ys p = Ok (initialized ys p kappa).
Proof.
  intros Hk. unfold initialize, z_func, lookup_params; simpl. by rewrite Hk.
Qed.

Lemma integrand_Ok (ys : list float) (p : params.t) (kappa : float) :
  params.kappa p = Some kappa ->
  integrand (initialized ys p kappa)
  = Ok (zip_with mul
          (zip_with mul ((fun z => float_pow z (kappa + 0.5)) <$> (Z_at p kappa <$> ys))
             (clamp <$> (sps_kv (kappa + 1 / 2) <$> (Z_at p kappa <$> ys))))
          ((fun y => np_exp (- y * params.nu p)) <$> ys)).
Proof.
  intros Hk. unfold integrand, lookup_params; simpl. rewrite Hk; simpl.
  rewrite np_binop_same_length by (by rewrite !length_fmap). simpl.
  rewrite np_binop_same_length; [done|].
  rewrite length_zip_with, !length_fmap. lia.
Qed.

Lemma clamp_not_infinity (kn : float) : (clamp kn =? infinity) = false.
Proof. unfold clamp. by destruct (kn =? infinity) eqn:E. Qed.

Lemma clamp_finite_or_nan (kn : float) :
  (kn =? neg_infinity) = false -> is_infinity (clamp kn) = false.
Proof.
  intros Hneg. unfold clamp. destruct (kn =? infinity) eqn:E; [done|].
  by apply IEEE.not_infinity.
Qed.

(** C5. Every sample whose Bessel evaluation [kv(kappa + 1/2, Z)] equals
    infinity holds exactly 1 in [Kn] once [initialize] is through, every
    other sample holds the evaluation; the integrand is the product
    [Z**(kappa+.5) * Kn * exp(-y*nu)] taken with these entries, so that
    no entry it multiplies is the infinity (nor, the Bessel function
    being nowhere the negative infinity, an infinity of either sign). *)
Theorem kappa_bessel_clamp (ys : list float) (p : params.t) (kappa : float) :
  params.kappa p = Some kappa ->
  exists (self : t) (Zs Kns G : list float),
    initialize __init__ ys p = Ok self /\
    Z self = Some Zs /\ Kn self = Some Kns /\
    integrand self = Ok G /\
    length G = length ys /\
    forall (i : nat) (yi : float), ys !! i = Some yi ->
      let z := Z_at p kappa yi in
      let kv := sps_kv (kappa + 1 / 2) z in
      exists kn : float,
        Zs !! i = Some z /\
        Kns !! i = Some kn /\
        kn = (if kv =? infinity then 1 else kv) /\
        (kn =? infinity) = false /\
        ((forall v x : float, (sps_kv v x =? neg_infinity) = false) ->
           is_infinity kn = false) /\
        G !! i = Some (float_pow z (kappa + 0.5) * kn * np_exp (- yi * params.nu p)).
Proof.
  intros Hk. eexists _, _, _, _.
  split; [by apply initialize_Ok|]. split; [reflexivity|]. split; [reflexivity|].
  split; [by apply integrand_Ok|]. split.
  - rewrite !length_zip_with, !length_fmap. lia.
  - intros i yi Hi z kv. exists (clamp kv). subst z kv.
    split; [by rewrite list_lookup_fmap, Hi|].
    split; [by rewrite !list_lookup_fmap, Hi|].
    split; [done|]. split; [apply clamp_not_infinity|].
    split; [intros Hneg; apply clamp_finite_or_nan, Hneg|].
    by rewrite !lookup_zip_with, !list_lookup_fmap, Hi.
Qed.

(** The parameter combinations for which the coefficients of [Z] are
    finite numbers. *)
Definition valid (p : params.t) (kappa : float) : Prop :=
  IEEE.finite (params.nu p) /\
  IEEE.finite (params.w_c p) /\
  IEEE.finite (float_pow (2 * kappa) (1 / 2)) /\
  IEEE.finite (float_pow (params.K_RADAR p) 2 * float_pow (np_sin (params.THETA p)) 2
               * theta_2 p kappa / float_pow (params.w_c p) 2) /\
  IEEE.finite (1 / 2 * float_pow (params.K_RADAR p) 2 * float_pow (np_cos (params.THETA p)) 2
               * theta_2 p kappa).

Lemma Z_at_zero (p : params.t) (kappa y : float) :
  ScipyFacts -> valid p kappa -> IEEE.fzero y -> IEEE.fzero (Z_at p kappa y).
Proof.
  intros Hlib (Hnu & Hw & Hs & Hc1 & Hc2) Hy. unfold Z_at.
  apply IEEE.mul_zero_r; [done|].
  apply (float_pow_zero Hlib); [|reflexivity].
  apply IEEE.zero_add_zero.
  - apply IEEE.mul_zero_r; [done|].
    rewrite (np_cos_zero Hlib) by (by apply IEEE.mul_zero_r).
    apply IEEE.one_sub_one.
  - apply IEEE.mul_zero_r; [done|].
    by apply (float_pow_zero Hlib).
Qed.

(** C10, amended. At a sample [y = 0], for [kappa + 1/2 > 0] and
    parameters for which the coefficients of [Z] are finite numbers
    ([valid]; [kappa = 0] is not among them, [theta_2] dividing by
    [kappa]), the argument [Z] is a zero, the Bessel evaluation there is
    the infinity, [Kn] holds 1 instead, and the integrand is a zero. *)
Theorem kappa_integrand_at_zero (ys : list float) (p : params.t) (kappa : float)
    (i : nat) (yi : float) :
  ScipyFacts ->
  params.kappa p = Some kappa ->
  (0 <? kappa + 0.5) = true ->
  valid p kappa ->
  ys !! i = Some yi ->
  IEEE.fzero yi ->
  exists (self : t) (Zs Kns G : list float) (z g : float),
    initialize __init__ ys p = Ok self /\
    Z self = Some Zs /\ Kn self = Some Kns /\
    integrand self = Ok G /\
    Zs !! i = Some z /\ (z =? 0) = true /\
    sps_kv (kappa + 1 / 2) z = infinity /\
    Kns !! i = Some 1 /\
    G !! i = Some g /\ (g =? 0) = true.
Proof.
  intros Hlib Hk Hpos Hp Hi Hy.
  pose proof (Z_at_zero p kappa yi Hlib Hp Hy) as Hz.
  assert (sps_kv (kappa + 1 / 2) (Z_at p kappa yi) = infinity) as Hkv
    by (by apply (sps_kv_zero Hlib)).
  eexists _, _, _, _, (Z_at p kappa yi), _.
  split; [by apply initialize_Ok|]. split; [reflexivity|]. split; [reflexivity|].
  split; [by apply integrand_Ok|].
  split; [by rewrite list_lookup_fmap, Hi|]. split; [exact Hz|]. split; [exact Hkv|].
  split; [by rewrite !list_lookup_fmap, Hi; cbn [fmap option_fmap option_map]; rewrite Hkv|].
  split.
  - rewrite !lookup_zip_with, !list_lookup_fmap, Hi.
    cbn [fmap option_fmap option_map mbind option_bind]. rewrite Hkv. reflexivity.
  - change (clamp infinity) with 1.
    rewrite (np_exp_zero Hlib).
    + apply IEEE.zero_mul_one, IEEE.zero_mul_one. by apply (float_pow_zero Hlib).
    + apply IEEE.mul_zero_l; [by apply IEEE.opp_zero | by destruct Hp].
Qed.

(** ** More on [INT_KAPPA]: the sign of [w_c] *)

Lemma Z_at_sign (p p' : params.t) (kappa y : float) :
  (forall x, np_cos (- x) = np_cos x) ->
  (forall x, float_pow (- x) 2 = float_pow x 2) ->
  params.K_RADAR p' = params.K_RADAR p ->
  params.THETA p' = params.THETA p ->
  params.w_c p' = - params.w_c p ->
  params.T p' = params.T p ->
  params.m p' = params.m p ->
  Z_at p' kappa y = Z_at p kappa y.
Proof.
  intros Hcos Hpow HK Hth Hw HT Hm. unfold Z_at, theta_2.
  by rewrite HK, Hth, Hw, HT, Hm, Hpow, (IEEE.mul_opp_l (params.w_c p) y), Hcos.
Qed.

(** X8. The kappa integrand does not depend on the sign of the
    gyrofrequency: parameters that differ in the sign of [w_c] alone give
    the same integrand, sample by sample (the cosine being even and the
    square of a number that of its opposite). *)
Theorem kappa_integrand_sign_of_w_c (ys : list float) (p p' : params.t) :
  (forall x, np_cos (- x) = np_cos x) ->
  (forall x, float_pow (- x) 2 = float_pow x 2) ->
  params.K_RADAR p' = params.K_RADAR p ->
  params.THETA p' = params.THETA p ->
  params.w_c p' = - params.w_c p ->
  params.T p' = params.T p ->
  params.m p' = params.m p ->
  params.nu p' = params.nu p ->
  params.kappa p' = params.kappa p ->
  initialize __init__ ys p' ≫= integrand = initialize __init__ ys p ≫= integrand.
Proof.
  intros Hcos Hpow HK Hth Hw HT Hm Hnu Hk.
  destruct (params.kappa p) as [k|] eqn:Hkp.
  - rewrite (initialize_Ok ys p k Hkp), (initialize_Ok ys p' k) by congruence.
    cbn [mbind res_bind]. rewrite !integrand_Ok by congruence.
    rewrite Hnu. do 3 f_equal.
    + f_equal. apply list_fmap_ext. intros i y _. by apply Z_at_sign.
    + do 2 f_equal. apply list_fmap_ext. intros i y _. by apply Z_at_sign.
  - unfold initialize, z_func, lookup_params; simpl. by rewrite Hk, Hkp.
Qed.

End kappa.

(** A reference run: electrons with [kappa = 3], the first sample at 0. *)
Lemma kappa_bessel_clamp_witness :
  let p := reference.electrons 0.5 (Some 3) "kappa" in
  let ys := [0; 0x1p-20] in
  exists (self : t) (Zs Kns G : list float),
    initialize (H := reference.scipy) __init__ ys p = Ok self /\
    Z self = Some Zs /\ Kn self = Some Kns /\
    integrand (H := reference.scipy) self = Ok G /\
    length G = length ys /\
    forall (i : nat) (yi : float), ys !! i = Some yi ->
      let z := Z_at (H := reference.scipy) p 3 yi in
      let kv := reference.kv (3 + 1 / 2) z in
      exists kn : float,
        Zs !! i = Some z /\
        Kns !! i = Some kn /\
        kn = (if kv =? infinity then 1 else kv) /\
        (kn =? infinity) = false /\
        ((forall v x : float, (reference.kv v x =? neg_infinity) = false) ->
           is_infinity kn = false) /\
        G !! i = Some (reference.pow z (3 + 0.5) * kn * reference.exp (- yi * params.nu p)).
Proof.
  apply (kappa_bessel_clamp (H := reference.scipy)). reflexivity.
Defined.

Lemma kappa_integrand_at_zero_witness :
  let p := reference.electrons 0.5 (Some 3) "kappa" in
  let ys := [0; 0x1p-20] in
  exists (self : t) (Zs Kns G : list float) (z g : float),
    initialize (H := reference.scipy) __init__ ys p = Ok self /\
    Z self = Some Zs /\ Kn self = Some Kns /\
    integrand (H := reference.scipy) self = Ok G /\
    Zs !! 0%nat = Some z /\ (z =? 0) = true /\
    reference.kv (3 + 1 / 2) z = infinity /\
    Kns !! 0%nat = Some 1 /\
    G !! 0%nat = Some g /\ (g =? 0) = true.
Proof.
  apply (kappa_integrand_at_zero (H := reference.scipy) _ _ 3 0%nat 0).
  - exact reference.scipy_facts.
  - reflexivity.
  - reflexivity.
  - repeat split; vm_compute; reflexivity.
  - reflexivity.
  - reflexivity.
Defined.

(** C10 as it was claimed, for every [kappa + 1/2 > 0], fails at
    [kappa = 0]: [theta_2] is [-inf], its product with [1 - cos(0) = 0]
    is NaN, and so are [Z], [Kn] and the integrand at the sample 0.
    (With Python's own float for [kappa], line 63 raises
    ZeroDivisionError instead; no zero is returned either way.) *)
Lemma kappa_zero_shape_is_nan :
  let p := reference.electrons 0.5 (Some 0) "kappa" in
  let ys := [0; 0x1p-20] in
  (0 <? 0 + 0.5) = true /\
  theta_2 (H := reference.scipy) p 0 = neg_infinity /\
  exists (self : t) (Zs Kns G : list float) (z kn g : float),
    initialize (H := reference.scipy) __init__ ys p = Ok self /\
    Z self = Some Zs /\ Kn self = Some Kns /\
    integrand (H := reference.scipy) self = Ok G /\
    Zs !! 0%nat = Some z /\ (z =? 0) = false /\ is_nan z = true /\
    Kns !! 0%nat = Some kn /\ (kn =? 1) = false /\
    G !! 0%nat = Some g /\ (g =? 0) = false /\ is_nan g = true.
Proof.
  cbv zeta. split; [reflexivity|]. split; [vm_compute; reflexivity|].
  exists (initialized (H := reference.scipy) [0; 0x1p-20]
            (reference.electrons 0.5 (Some 0) "kappa") 0),
    [nan; nan], [nan; nan], [nan; nan], nan, nan, nan.
  repeat split; vm_compute; reflexivity.
Qed.

Lemma kappa_integrand_sign_of_w_c_witness :
  let p := reference.electrons 0.5 (Some 3) "kappa" in
  let p' := params.make (-0x1.b09518fcd4aeep+5) 0.5 (-0x1.77b978269b80bp+22) 1000
              0x1.279dcc8b6b7edp-100 100 (Some 3) "kappa" in
  initialize (H := reference.scipy) __init__ [0; 0x1p-20] p'
    ≫= integrand (H := reference.scipy)
  = initialize (H := reference.scipy) __init__ [0; 0x1p-20] p
      ≫= integrand (H := reference.scipy).
Proof.
  apply (kappa_integrand_sign_of_w_c (H := reference.scipy));
    first [exact reference.cos_even | exact reference.pow_even | reflexivity].
Defined.

End INT_KAPPA.

(** ** [INT_MAXWELL]: the Maxwellian distribution *)

Module INT_MAXWELL.
Section maxwell.
Context `{Scipy}.

Record t : Type := {
  y : list float;
  params : option params.t;
}.

Definition __init__ : t := {| y := []; params := None |}.

Definition initialize (self : t) (y : list float) (params : params.t) : t :=
  {| y := y; params := Some params |}.

(** Lines 96-99 at one sample. *)
Definition G_at (p : params.t) (y : float) : float :=
  np_exp
    (- y * params.nu p
     - float_pow (params.K_RADAR p) 2 * float_pow (np_sin (params.THETA p)) 2
         * params.T p * const_k
         / (params.m p * float_pow (params.w_c p) 2)
         * (1 - np_cos (params.w_c p * y))
     - 0.5 * float_pow (params.K_RADAR p * np_cos (params.THETA p) * y) 2
         * params.T p * const_k / params.m p).

Definition integrand (self : t) : res (list float) :=
  match params self with
  | None => Raise KeyError
  | Some p => Ok (G_at p <$> y self)
  end.

(** The parameter combinations the closed form is meant for: the
    parameters and the coefficients computed from them alone are finite
    numbers, and the mass can be divided by. *)
Definition valid (p : params.t) : Prop :=
  IEEE.finite (params.nu p) /\
  IEEE.finite (params.w_c p) /\
  IEEE.finite (float_pow (params.K_RADAR p) 2 * float_pow (np_sin (params.THETA p)) 2
               * params.T p * const_k / (params.m p * float_pow (params.w_c p) 2)) /\
  IEEE.finite (params.K_RADAR p * np_cos (params.THETA p)) /\
  IEEE.finite (params.T p) /\
  IEEE.divisor (params.m p).

Lemma G_at_zero (p : params.t) (y : float) :
  ScipyFacts -> valid p -> IEEE.fzero y -> G_at p y = 1.
Proof.
  intros Hlib (Hnu & Hw & Hc & Hk & HT & Hm) Hy. unfold G_at.
  apply np_exp_zero; [done|].
  apply IEEE.zero_sub_zero; [apply IEEE.zero_sub_zero|].
  - apply IEEE.mul_zero_l; [by apply IEEE.opp_zero | done].
  - apply IEEE.mul_zero_r; [done|].
    rewrite (np_cos_zero Hlib) by (by apply IEEE.mul_zero_r).
    apply IEEE.one_sub_one.
  - apply IEEE.zero_div; [|done].
    apply IEEE.mul_zero_l; [|apply (const_k_finite Hlib)].
    apply IEEE.mul_zero_l; [|done].
    apply IEEE.mul_zero_r; [reflexivity|].
    apply (float_pow_zero Hlib); [|reflexivity].
    by apply IEEE.mul_zero_r.
Qed.

(** C6. For every valid parameter combination, the Maxwell integrand at
    a sample [y = 0] is exactly 1. *)
Theorem maxwell_integrand_at_zero (y : list float) (p : params.t) (i : nat) (yi : float) :
  ScipyFacts ->
  valid p ->
  y !! i = Some yi ->
  IEEE.fzero yi ->
  exists G : list float,
    integrand (initialize __init__ y p) = Ok G /\
    length G = length y /\
    G !! i = Some 1.
Proof.
  intros Hlib Hp Hi Hy. eexists. split; [reflexivity|]. split.
  - apply length_fmap.
  - unfold initialize; simpl. rewrite list_lookup_fmap, Hi. simpl.
    f_equal. by apply G_at_zero.
Qed.

(** ** More on [INT_MAXWELL]: the sign of [w_c] *)

(** X9. The Maxwell integrand does not depend on the sign of the
    gyrofrequency: parameters that differ in the sign of [w_c] alone give
    the same integrand, sample by sample (the cosine being even and the
    square of a number that of its opposite). *)
Theorem maxwell_integrand_sign_of_w_c (ys : list float) (p p' : params.t) :
  (forall x, np_cos (- x) = np_cos x) ->
  (forall x, float_pow (- x) 2 = float_pow x 2) ->
  params.K_RADAR p' = params.K_RADAR p ->
  params.THETA p' = params.THETA p ->
  params.w_c p' = - params.w_c p ->
  params.T p' = params.T p ->
  params.m p' = params.m p ->
  params.nu p' = params.nu p ->
  integrand (initialize __init__ ys p') = integrand (initialize __init__ ys p).
Proof.
  intros Hcos Hpow HK Hth Hw HT Hm Hnu. unfold integrand, initialize; simpl.
  f_equal. apply list_fmap_ext. intros i y _. unfold G_at.
  by rewrite HK, Hth, Hw, HT, Hm, Hnu, Hpow, (IEEE.mul_opp_l (params.w_c p) y), Hcos.
Qed.

End maxwell.

(** A reference run: electrons, the first sample at 0. *)
Lemma maxwell_integrand_at_zero_witness :
  exists G : list float,
    integrand (H := reference.scipy)
      (initialize __init__ [0; 0x1p-20] (reference.electrons 0.5 None "maxwell")) = Ok G /\
    length G = length [0; 0x1p-20] /\
    G !! 0%nat = Some 1.
Proof.
  apply (maxwell_integrand_at_zero (H := reference.scipy) _ _ 0%nat 0).
  - exact reference.scipy_facts.
  - repeat split; vm_compute; reflexivity.
  - reflexivity.
  - reflexivity.
Defined.
Lemma maxwell_integrand_sign_of_w_c_witness :
  let p := reference.electrons 0.5 None "maxwell" in
  let p' := params.make (-0x1.b09518fcd4aeep+5) 0.5 (-0x1.77b978269b80bp+22) 1000
              0x1.279dcc8b6b7edp-100 100 None "maxwell" in
  integrand (H := reference.scipy) (initialize __init__ [0; 0x1p-20] p')
  = integrand (H := reference.scipy) (initialize __init__ [0; 0x1p-20] p).
Proof.
  apply (maxwell_integrand_sign_of_w_c (H := reference.scipy));
    first [exact reference.cos_even | exact reference.pow_even | reflexivity].
Defined.

End INT_MAXWELL.

(** ** [INT_LONG]: an isotropic distribution, by its velocity integral *)

Module INT_LONG.

(** The one array object that [v_int_parallel.integrand] returns on
    every call: the module-level buffer [v_int_parallel.array]. *)
Inductive ndarray : Set := shared_buffer.

(** What [v_int] reads and changes outside the instance: the contents of
    that buffer, and the Debye ratios printed so far (newest first). *)
Record world : Type := {
  buffer : list float;
  printed : list float;
}.

(** Reading an array through a name bound to it. *)
Definition read (a : ndarray) (w : world) : list float :=
  match a with shared_buffer => buffer w end.

Section long.
Context `{Scipy}.

(** [vdfs.F_X(v, params).f_0()]: the distribution sampled on the grid. *)
Variable f_0 : vdf_class -> list float -> params.t -> list float.

(** Line 123: the velocity grid, built from [cf.V_MAX], [cf.ORDER] and
    [cf.V_N_POINTS] alone. *)
Variable cf_v : list float.

Record t : Type := {
  y : list float;
  params : option params.t;
  char_vel : option float;
}.

Definition __init__ : t := {| y := []; params := None; char_vel := None |}.

Definition initialize (self : t) (y : list float) (params : params.t) : t :=
  {| y := y; params := Some params; char_vel := char_vel self |}.

Definition lookup_params (self : t) : res params.t :=
  from_option Ok (Raise KeyError) (params self).

(** Lines 124-133: the class bound to [f]; no branch binds it for
    another tag. *)
Definition select (tag : string) : option vdf_class :=
  if decide (tag = "maxwell") then Some F_MAXWELL
  else if decide (tag = "kappa") then Some F_KAPPA
  else if decide (tag = "kappa_vol2") then Some F_KAPPA_2
  else if decide (tag = "gauss_shell") then Some F_GAUSS_SHELL
  else if decide (tag = "real_data") then Some F_REAL_DATA
  else None.

(** A call of [v_int_parallel.integrand]: the pool writes into the
    buffer, and the buffer object is what comes back. *)
Definition call_integrand (y : list float) (p : params.t) (v f : list float)
    (sched : list (nat * float)) (w : world) : res (ndarray * world) :=
  arr ← v_int_parallel.integrand y p v f sched (buffer w);
  Ok (shared_buffer, {| buffer := arr; printed := printed w |}).

(** [v_int]; [sched_maxwell] and [sched] are the completion orders of
    the two pools.  Returns the array bound to [res]. *)
Definition v_int (self : t) (sched_maxwell sched : list (nat * float)) (w : world)
    : res (ndarray * t * world) :=
  p ← lookup_params self;
  let v := cf_v in
  let f := select (params.vdf p) in
  '(res_maxwell, w1) ← call_integrand (y self) p v (f_0 F_MAXWELL v p) sched_maxwell w;
  int_maxwell ← simps (read res_maxwell w1) (y self);
  f ← from_option Ok (Raise UnboundLocalError) f;
  '(res, w2) ← call_integrand (y self) p v (f_0 f v p) sched w1;
  int_res ← simps (read res w2) (y self);
  let ratio := int_maxwell / int_res in
  Ok (res,
      {| y := y self; params := params self; char_vel := Some ratio |},
      {| buffer := buffer w2; printed := ratio :: printed w2 |}).

(** [v_int] with lines 135-145, the comparison with the Maxwellian and
    its report, left out: what the diagnostic is measured against. *)
Definition v_int_without_diagnostic (self : t) (sched : list (nat * float)) (w : world)
    : res (ndarray * t * world) :=
  p ← lookup_params self;
  let v := cf_v in
  let f := select (params.vdf p) in
  f ← from_option Ok (Raise UnboundLocalError) f;
  '(res, w1) ← call_integrand (y self) p v (f_0 f v p) sched w;
  Ok (res, self, w1).

(** Lines 154-155 at one sample. *)
Definition num_at (p : params.t) (y : float) : float :=
  let cos_t := np_cos (params.THETA p) in
  let sin_t := np_sin (params.THETA p) in
  let w_c := params.w_c p in
  abs (params.K_RADAR p) * abs w_c
  * (float_pow cos_t 2 * w_c * y + float_pow sin_t 2 * np_sin (w_c * y)).

(** Lines 156-158 at one sample. *)
Definition den_at (p : params.t) (y : float) : float :=
  let cos_t := np_cos (params.THETA p) in
  let sin_t := np_sin (params.THETA p) in
  let w_c := params.w_c p in
  w_c * float_pow
          (float_pow cos_t 2 * float_pow w_c 2 * float_pow y 2
           - 2 * float_pow sin_t 2 * np_cos (w_c * y)
           + 2 * float_pow sin_t 2)
          0.5.

(** Line 161, given the last sample [y[-1]]. *)
Definition first (p : params.t) (y_last : float) : float :=
  np_sign y_last * abs (params.K_RADAR p) * abs (params.w_c p) / abs (params.w_c p).

(** Lines 163-164 at one sample: the quotient, and [first] where the
    denominator equals zero. *)
Definition out_at (p : params.t) (y_last y : float) : float :=
  if den_at p y =? 0 then first p y_last else num_at p y / den_at p y.

Definition p_d (self : t) : res (list float) :=
  p ← lookup_params self;
  y_last ← from_option Ok (Raise IndexError) (last (y self));
  Ok (out_at p y_last <$> y self).

(** [integrand]: [self.p_d() * self.v_int()]. *)
Definition integrand (self : t) (sched_maxwell sched : list (nat * float)) (w : world)
    : res (list float * t * world) :=
  pd ← p_d self;
  '(res, self', w') ← v_int self sched_maxwell sched w;
  G ← np_binop mul pd (read res w');
  Ok (G, self', w').

(** ** The removable singularity of [p_d] *)

Lemma den_at_zero (p : params.t) (y : float) :
  ScipyFacts ->
  IEEE.finite (params.w_c p) ->
  IEEE.finite (float_pow (np_cos (params.THETA p)) 2 * float_pow (params.w_c p) 2) ->
  IEEE.finite (2 * float_pow (np_sin (params.THETA p)) 2) ->
  IEEE.fzero y ->
  IEEE.fzero (den_at p y).
Proof.
  intros Hlib Hw Ha Hb Hy. unfold den_at.
  apply IEEE.mul_zero_r; [done|].
  apply (float_pow_zero Hlib); [|reflexivity].
  rewrite (np_cos_zero Hlib (params.w_c p * y)) by (by apply IEEE.mul_zero_r).
  rewrite IEEE.mul_one_r by done.
  apply IEEE.sub_add_cancel_zero; [|done].
  apply IEEE.mul_zero_r; [done|]. by apply (float_pow_zero Hlib).
Qed.

Lemma first_sign_invariant (p p' : params.t) (y_last : float) :
  params.K_RADAR p' = params.K_RADAR p ->
  params.w_c p' = params.w_c p \/ params.w_c p' = - params.w_c p ->
  first p' y_last = first p y_last.
Proof.
  intros HK Hw. unfold first. rewrite HK.
  destruct Hw as [-> | ->]; [done|]. by rewrite IEEE.abs_opp.
Qed.

(** C4, as the code has it. At every sample where the denominator
    equals zero, [p_d] returns [sign(y_last) * |K| * |w_c| / |w_c|],
    evaluated in binary64 from left to right, [y_last] being the final
    sample; a sample [y = 0] is such a sample whenever [w_c],
    [cos(THETA)**2 * w_c**2] and [2 * sin(THETA)**2] are finite; and the
    value returned there is the same for every aspect angle and for
    either sign of the gyrofrequency. *)
Theorem p_d_zero_denominator (ys : list float) (p : params.t) (y_last : float) :
  last ys = Some y_last ->
  exists out : list float,
    p_d (initialize __init__ ys p) = Ok out /\
    length out = length ys /\
    (forall (i : nat) (yi : float), ys !! i = Some yi ->
       (den_at p yi =? 0) = true ->
       out !! i
       = Some (np_sign y_last * abs (params.K_RADAR p) * abs (params.w_c p)
               / abs (params.w_c p))) /\
    (ScipyFacts ->
     IEEE.finite (params.w_c p) ->
     IEEE.finite (float_pow (np_cos (params.THETA p)) 2 * float_pow (params.w_c p) 2) ->
     IEEE.finite (2 * float_pow (np_sin (params.THETA p)) 2) ->
     forall yi : float, (yi =? 0) = true -> (den_at p yi =? 0) = true) /\
    (forall (p' : params.t) (out' : list float),
       params.K_RADAR p' = params.K_RADAR p ->
       params.w_c p' = params.w_c p \/ params.w_c p' = - params.w_c p ->
       p_d (initialize __init__ ys p') = Ok out' ->
       forall (i : nat) (yi : float), ys !! i = Some yi ->
         (den_at p yi =? 0) = true -> (den_at p' yi =? 0) = true ->
         out' !! i = out !! i).
Proof.
  intros Hlast.
  assert (forall q, p_d (initialize __init__ ys q) = Ok (out_at q y_last <$> ys)) as Hpd.
  { intros q. unfold p_d, initialize, lookup_params; simpl. by rewrite Hlast. }
  assert (forall q i yi, ys !! i = Some yi -> (den_at q yi =? 0) = true ->
            (out_at q y_last <$> ys) !! i = Some (first q y_last)) as Hout.
  { intros q i yi Hi Hden. rewrite list_lookup_fmap, Hi. simpl.
    unfold out_at. by rewrite Hden. }
  eexists. split; [apply Hpd|]. split; [apply length_fmap|].
  split; [|split].
  - intros i yi Hi Hden. by rewrite (Hout p i yi).
  - intros Hlib Hw Ha Hb yi Hy. by apply den_at_zero.
  - intros p' out' HK Hw Hpd' i yi Hi Hden Hden'.
    rewrite Hpd in Hpd'. injection Hpd' as <-.
    rewrite (Hout p i yi), (Hout p' i yi) by done.
    f_equal. by apply first_sign_invariant.
Qed.

(** ** The Debye-length diagnostic of [v_int] *)

(** The velocity integrals of the samples for one distribution class. *)
Definition velocity_integrals (ys : list float) (p : params.t) (c : vdf_class) : list float :=
  (fun yi => v_int_parallel.velocity_integral yi p cf_v (f_0 c cf_v p)) <$> ys.

(** The Debye ratio that [v_int] computes: the Simpson integral over the
    samples of the Maxwellian velocity integrals by that of the selected
    distribution's. *)
Definition debye_ratio (ys : list float) (p : params.t) (c : vdf_class) : float :=
  si_simps (velocity_integrals ys p F_MAXWELL) ys / si_simps (velocity_integrals ys p c) ys.

Lemma velocity_integrals_length (ys : list float) (p : params.t) (c : vdf_class) :
  length (velocity_integrals ys p c) = length ys.
Proof. apply length_fmap. Qed.

Lemma velocity_integrals_nonempty (ys : list float) (p : params.t) (c : vdf_class) :
  ys <> [] -> velocity_integrals ys p c <> [].
Proof. by destruct ys. Qed.

(** The tags for which lines 124-133 bind [f]. *)
Lemma select_handled (tag : string) :
  is_Some (select tag)
  <-> tag ∈ ["maxwell"; "kappa"; "kappa_vol2"; "gauss_shell"; "real_data"].
Proof.
  unfold select. rewrite !elem_of_cons, elem_of_nil.
  repeat (destruct (decide _) as [->|?]); split; eauto 10.
  - intros [c Hc]. discriminate Hc.
  - intros [?|[?|[?|[?|[?|[]]]]]]; done.
Qed.

Lemma call_integrand_closed_form (ys : list float) (p : params.t) (f : list float)
    (sched : list (nat * float)) (w : world) :
  sched ≡ₚ enumerate ys ->
  length ys <= length (buffer w) ->
  cf_v <> [] ->
  length f = length cf_v ->
  call_integrand ys p cf_v f sched w
  = Ok (shared_buffer,
        {| buffer := ((fun yi => v_int_parallel.velocity_integral yi p cf_v f) <$> ys)
                     ++ drop (length ys) (buffer w);
           printed := printed w |}).
Proof.
  intros Hperm Hlen Hv Hf. unfold call_integrand.
  by rewrite v_int_parallel.integrand_closed_form.
Qed.

Lemma call_integrand_Ok_length (ys : list float) (p : params.t) (f : list float)
    (sched : list (nat * float)) (w : world) (r : ndarray * world) :
  sched ≡ₚ enumerate ys ->
  call_integrand ys p cf_v f sched w = Ok r ->
  length ys <= length (buffer w).
Proof.
  intros Hperm Hrun. unfold call_integrand in Hrun.
  destruct (v_int_parallel.integrand ys p cf_v f sched (buffer w)) as [arr|e] eqn:E;
    [|discriminate Hrun].
  by eapply v_int_parallel.integrand_Ok_length.
Qed.

(** A call that returns on samples that are not empty has integrated
    over a velocity grid that is not empty. *)
Lemma call_integrand_Ok_grid (ys : list float) (p : params.t) (f : list float)
    (sched : list (nat * float)) (w : world) (r : ndarray * world) :
  sched ≡ₚ enumerate ys ->
  ys <> [] ->
  call_integrand ys p cf_v f sched w = Ok r ->
  cf_v <> [].
Proof.
  intros Hperm Hys Hrun. unfold call_integrand in Hrun.
  destruct (v_int_parallel.integrand ys p cf_v f sched (buffer w)) as [arr|e] eqn:E;
    [|discriminate Hrun].
  by eapply v_int_parallel.integrand_Ok_grid.
Qed.

Lemma call_integrand_full (ys : list float) (p : params.t) (c : vdf_class)
    (sched : list (nat * float)) (w : world) :
  (forall c : vdf_class, length (f_0 c cf_v p) = length cf_v) ->
  cf_v <> [] ->
  sched ≡ₚ enumerate ys ->
  length ys = length (buffer w) ->
  call_integrand ys p cf_v (f_0 c cf_v p) sched w
  = Ok (shared_buffer, {| buffer := velocity_integrals ys p c; printed := printed w |}).
Proof.
  intros Hf Hv Hperm Hlen. rewrite call_integrand_closed_form by (try done; lia).
  rewrite drop_ge by lia. by rewrite app_nil_r.
Qed.

Lemma call_integrand_IndexError (ys : list float) (p : params.t) (f : list float)
    (sched : list (nat * float)) (w : world) :
  sched ≡ₚ enumerate ys ->
  length (buffer w) < length ys ->
  cf_v <> [] ->
  length f = length cf_v ->
  call_integrand ys p cf_v f sched w = Raise IndexError.
Proof.
  intros Hperm Hlen Hv Hf. unfold call_integrand.
  by rewrite v_int_parallel.integrand_IndexError.
Qed.

(** What [v_int] returns and leaves behind when the samples fill the
    buffer, neither they nor the velocity grid are empty, and the tag
    selects a class. *)
Lemma v_int_closed_form (ys : list float) (p : params.t) (c : vdf_class)
    (sched_maxwell sched : list (nat * float)) (w : world) :
  (forall c : vdf_class, length (f_0 c cf_v p) = length cf_v) ->
  cf_v <> [] ->
  ys <> [] ->
  sched_maxwell ≡ₚ enumerate ys ->
  sched ≡ₚ enumerate ys ->
  length ys = length (buffer w) ->
  select (params.vdf p) = Some c ->
  v_int (initialize __init__ ys p) sched_maxwell sched w
  = Ok (shared_buffer,
        {| y := ys; params := Some p; char_vel := Some (debye_ratio ys p c) |},
        {| buffer := velocity_integrals ys p c;
           printed := debye_ratio ys p c :: printed w |}).
Proof.
  intros Hf Hv Hys Hpm Hps Hlen Hsel.
  unfold v_int, initialize, lookup_params; simpl.
  rewrite call_integrand_full by done. simpl.
  rewrite simps_same_length
    by (by apply velocity_integrals_nonempty || by apply velocity_integrals_length).
  simpl. rewrite Hsel; simpl.
  rewrite call_integrand_full
    by (try done; simpl; by rewrite velocity_integrals_length).
  simpl.
  rewrite simps_same_length
    by (by apply velocity_integrals_nonempty || by apply velocity_integrals_length).
  done.
Qed.

(** A call of [v_int] that returns: the samples and the velocity grid
    were not empty, the samples filled the buffer, the tag selected a
    class, and the result is that of [v_int_closed_form]. *)
Lemma v_int_Ok_inv (ys : list float) (p : params.t)
    (sched_maxwell sched : list (nat * float)) (w : world)
    (res : ndarray) (self' : t) (w' : world) :
  (forall c : vdf_class, length (f_0 c cf_v p) = length cf_v) ->
  sched_maxwell ≡ₚ enumerate ys ->
  sched ≡ₚ enumerate ys ->
  v_int (initialize __init__ ys p) sched_maxwell sched w = Ok (res, self', w') ->
  ys <> [] /\ cf_v <> [] /\ length ys = length (buffer w) /\
  exists c : vdf_class,
    select (params.vdf p) = Some c /\
    res = shared_buffer /\
    self' = {| y := ys; params := Some p; char_vel := Some (debye_ratio ys p c) |} /\
    w' = {| buffer := velocity_integrals ys p c;
            printed := debye_ratio ys p c :: printed w |}.
Proof.
  intros Hf Hpm Hps Hrun. pose proof Hrun as Hrun0.
  unfold v_int, initialize, lookup_params in Hrun0; simpl in Hrun0.
  destruct (call_integrand ys p cf_v (f_0 F_MAXWELL cf_v p) sched_maxwell w)
    as [[a1 w1]|e] eqn:E1; [|discriminate Hrun0].
  simpl in Hrun0.
  destruct (simps _ ys) as [int_maxwell|e] eqn:Es in Hrun0; [|discriminate Hrun0].
  apply simps_Ok_inv in Es as [Hl1 Hne1].
  assert (ys <> []) as Hys.
  { intros ->. apply Hne1. by apply nil_length_inv. }
  pose proof (call_integrand_Ok_grid _ _ _ _ _ _ Hpm Hys E1) as Hv.
  pose proof (call_integrand_Ok_length _ _ _ _ _ _ Hpm E1) as Hle.
  rewrite call_integrand_closed_form in E1 by done.
  injection E1 as <- <-. simpl in Hl1.
  rewrite length_app, length_fmap, length_drop in Hl1.
  assert (length ys = length (buffer w)) as Hlen by lia.
  simpl in Hrun0.
  destruct (select (params.vdf p)) as [c|] eqn:Hsel; [|discriminate Hrun0].
  rewrite (v_int_closed_form ys p c) in Hrun by done.
  injection Hrun as <- <- <-. split; [done|]. split; [done|]. split; [done|].
  by exists c.
Qed.

(** C9, amended. Whenever [v_int] returns, the array it returns holds
    what [v_int] without the Debye-length diagnostic returns from the
    same state: at every sample the velocity integral of the selected
    distribution.  [v_int] does return when the samples fill the buffer,
    neither they nor the velocity grid are empty, and the tag is one of
    ['maxwell'], ['kappa'], ['kappa_vol2'], ['gauss_shell'] and
    ['real_data'].  (The distributions are sampled on the velocity grid;
    the pools complete in any order.  With fewer samples than buffer
    slots the diagnostic raises where [v_int] without it returns.) *)
Theorem v_int_diagnostic_frame (ys : list float) (p : params.t)
    (sched_maxwell sched sched' : list (nat * float)) (w : world) :
  (forall c : vdf_class, length (f_0 c cf_v p) = length cf_v) ->
  sched_maxwell ≡ₚ enumerate ys ->
  sched ≡ₚ enumerate ys ->
  sched' ≡ₚ enumerate ys ->
  (forall (res : ndarray) (self' : t) (w' : world),
     v_int (initialize __init__ ys p) sched_maxwell sched w = Ok (res, self', w') ->
     exists (c : vdf_class) (res0 : ndarray) (self0 : t) (w0 : world),
       select (params.vdf p) = Some c /\
       v_int_without_diagnostic (initialize __init__ ys p) sched' w = Ok (res0, self0, w0) /\
       read res w' = read res0 w0 /\
       forall (i : nat) (yi : float), ys !! i = Some yi ->
         exists r : float,
           v_int_parallel.v_int_integrand yi p cf_v (f_0 c cf_v p) = Ok r /\
           read res w' !! i = Some r) /\
  (cf_v <> [] -> ys <> [] ->
   length ys = length (buffer w) ->
   params.vdf p ∈ ["maxwell"; "kappa"; "kappa_vol2"; "gauss_shell"; "real_data"] ->
   exists (res : ndarray) (self' : t) (w' : world),
     v_int (initialize __init__ ys p) sched_maxwell sched w = Ok (res, self', w')).
Proof.
  intros Hf Hpm Hps Hps'. split.
  - intros res self' w' Hrun.
    destruct (v_int_Ok_inv _ _ _ _ _ _ _ _ Hf Hpm Hps Hrun)
      as (Hys & Hv & Hlen & c & Hsel & -> & -> & ->).
    exists c. eexists _, _, _. split; [done|]. split.
    { unfold v_int_without_diagnostic, initialize, lookup_params; simpl.
      rewrite Hsel; simpl. by rewrite call_integrand_full. }
    simpl. split; [done|].
    intros i yi Hi. eexists. split; [by apply v_int_parallel.v_int_integrand_Ok|].
    unfold velocity_integrals. by rewrite list_lookup_fmap, Hi.
  - intros Hv Hys Hlen [c Hsel]%select_handled.
    rewrite (v_int_closed_form ys p c) by done. eauto.
Qed.

(** ** More on [INT_LONG]: what [p_d], [v_int] and [integrand] return and raise *)

(** X10. [p_d] raises IndexError exactly on an empty sample array (from
    [y[-1]]), and so does [integrand] then, whatever the buffer and the
    tag ([p_d] is evaluated before [v_int]); on a non-empty array [p_d]
    returns one value per sample. *)
Theorem p_d_empty_iff (ys : list float) (p : params.t)
    (sched_maxwell sched : list (nat * float)) (w : world) :
  (p_d (initialize __init__ ys p) = Raise IndexError <-> ys = []) /\
  (ys = [] ->
     integrand (initialize __init__ ys p) sched_maxwell sched w = Raise IndexError) /\
  (ys <> [] ->
     exists out : list float,
       p_d (initialize __init__ ys p) = Ok out /\ length out = length ys).
Proof.
  unfold integrand, p_d, initialize, lookup_params; simpl.
  destruct (last ys) as [y_last|] eqn:E; simpl.
  - assert (ys <> []) as Hne by (by intros ->).
    split; [by split|]. split; [done|]. intros _. eexists. split; [done|].
    apply length_fmap.
  - apply last_None in E. by subst ys.
Qed.

(** X11. What [v_int] raises, the distributions being sampled on a
    velocity grid that is not empty: IndexError with more samples than
    buffer slots; ValueError with fewer (from the Simpson integral of
    the buffer over the samples, which the diagnostic takes); and, with
    as many samples as slots and at least one, UnboundLocalError for a
    tag that is none of ['maxwell'], ['kappa'], ['kappa_vol2'],
    ['gauss_shell'] and ['real_data']. *)
Theorem v_int_raises (ys : list float) (p : params.t)
    (sched_maxwell sched : list (nat * float)) (w : world) :
  (forall c : vdf_class, length (f_0 c cf_v p) = length cf_v) ->
  cf_v <> [] ->
  sched_maxwell ≡ₚ enumerate ys ->
  sched ≡ₚ enumerate ys ->
  (length (buffer w) < length ys ->
     v_int (initialize __init__ ys p) sched_maxwell sched w = Raise IndexError) /\
  (length ys < length (buffer w) ->
     v_int (initialize __init__ ys p) sched_maxwell sched w = Raise ValueError) /\
  (ys <> [] -> length ys = length (buffer w) ->
     params.vdf p ∉ ["maxwell"; "kappa"; "kappa_vol2"; "gauss_shell"; "real_data"] ->
     v_int (initialize __init__ ys p) sched_maxwell sched w = Raise UnboundLocalError).
Proof.
  intros Hf Hv Hpm Hps. unfold v_int, initialize, lookup_params; simpl.
  split; [|split].
  - intros Hlen. by rewrite call_integrand_IndexError.
  - intros Hlen. rewrite call_integrand_closed_form by (try done; lia). simpl.
    rewrite simps_mismatch; [done|].
    rewrite length_app, length_fmap, length_drop. lia.
  - intros Hys Hlen Htag. rewrite call_integrand_full by done. simpl.
    rewrite simps_same_length
      by (by apply velocity_integrals_nonempty || by apply velocity_integrals_length).
    simpl. destruct (select (params.vdf p)) as [c|] eqn:Hsel; [|done].
    exfalso. apply Htag, select_handled. by exists c.
Qed.

(** X12. What a call of [v_int] that returns has done: the samples filled
    the buffer and the tag selected a class; the buffer holds the
    velocity integrals of that class (those of the Maxwellian pass are
    gone); exactly one Debye ratio was printed, the Simpson integral of
    the Maxwellian velocity integrals by that of the selected ones, and
    the same ratio is in [char_vel]; samples and parameters of the
    instance are as they were. *)
Theorem v_int_effects (ys : list float) (p : params.t)
    (sched_maxwell sched : list (nat * float)) (w : world)
    (res : ndarray) (self' : t) (w' : world) :
  (forall c : vdf_class, length (f_0 c cf_v p) = length cf_v) ->
  sched_maxwell ≡ₚ enumerate ys ->
  sched ≡ₚ enumerate ys ->
  v_int (initialize __init__ ys p) sched_maxwell sched w = Ok (res, self', w') ->
  length ys = length (buffer w) /\
  exists c : vdf_class,
    select (params.vdf p) = Some c /\
    y self' = ys /\ params self' = Some p /\
    buffer w' = velocity_integrals ys p c /\
    char_vel self'
    = Some (si_simps (velocity_integrals ys p F_MAXWELL) ys
            / si_simps (velocity_integrals ys p c) ys) /\
    printed w'
    = si_simps (velocity_integrals ys p F_MAXWELL) ys
      / si_simps (velocity_integrals ys p c) ys :: printed w.
Proof.
  intros Hf Hpm Hps Hrun.
  destruct (v_int_Ok_inv _ _ _ _ _ _ _ _ Hf Hpm Hps Hrun)
    as (_ & _ & Hlen & c & Hsel & -> & -> & ->).
  split; [done|]. by exists c.
Qed.

(** X13. For the tag ['maxwell'] the two passes of [v_int] compute the
    same integral, so that the Debye ratio it prints and keeps is
    exactly 1 whenever that integral is a finite number other than zero. *)
Theorem v_int_maxwell_ratio (ys : list float) (p : params.t)
    (sched_maxwell sched : list (nat * float)) (w : world)
    (res : ndarray) (self' : t) (w' : world) :
  (forall c : vdf_class, length (f_0 c cf_v p) = length cf_v) ->
  sched_maxwell ≡ₚ enumerate ys ->
  sched ≡ₚ enumerate ys ->
  params.vdf p = "maxwell" ->
  v_int (initialize __init__ ys p) sched_maxwell sched w = Ok (res, self', w') ->
  IEEE.finite (si_simps (velocity_integrals ys p F_MAXWELL) ys) ->
  is_zero (si_simps (velocity_integrals ys p F_MAXWELL) ys) = false ->
  char_vel self' = Some 1 /\ printed w' = 1 :: printed w.
Proof.
  intros Hf Hpm Hps Htag Hrun Hfin Hnz.
  destruct (v_int_Ok_inv _ _ _ _ _ _ _ _ Hf Hpm Hps Hrun)
    as (_ & _ & _ & c & Hsel & -> & -> & ->).
  rewrite Htag in Hsel. injection Hsel as <-.
  unfold debye_ratio; simpl. by rewrite IEEE.div_self.
Qed.

(** X14. [integrand] is the product, sample by sample, of [p_d] and the
    velocity integral of the selected distribution: it returns one value
    per sample when the samples are not empty and fill the buffer, the
    velocity grid is not empty, and the tag selects a class. *)
Theorem long_integrand_product (ys : list float) (p : params.t) (c : vdf_class)
    (y_last : float) (sched_maxwell sched : list (nat * float)) (w : world) :
  (forall c : vdf_class, length (f_0 c cf_v p) = length cf_v) ->
  cf_v <> [] ->
  sched_maxwell ≡ₚ enumerate ys ->
  sched ≡ₚ enumerate ys ->
  length ys = length (buffer w) ->
  select (params.vdf p) = Some c ->
  last ys = Some y_last ->
  exists (G : list float) (self' : t) (w' : world),
    integrand (initialize __init__ ys p) sched_maxwell sched w = Ok (G, self', w') /\
    length G = length ys /\
    forall (i : nat) (yi : float), ys !! i = Some yi ->
      exists pd r : float,
        pd = (if den_at p yi =? 0 then first p y_last else num_at p yi / den_at p yi) /\
        v_int_parallel.v_int_integrand yi p cf_v (f_0 c cf_v p) = Ok r /\
        G !! i = Some (pd * r).
Proof.
  intros Hf Hv Hpm Hps Hlen Hsel Hlast. unfold integrand.
  assert (ys <> []) as Hys by (by intros ->).
  rewrite (v_int_closed_form ys p c) by done.
  unfold p_d, initialize, lookup_params; simpl. rewrite Hlast; simpl.
  rewrite np_binop_same_length
    by (unfold velocity_integrals; by rewrite !length_fmap).
  simpl. eexists _, _, _. split; [done|]. split.
  - unfold velocity_integrals. rewrite length_zip_with, !length_fmap. lia.
  - intros i yi Hi. eexists _, _. split; [reflexivity|].
    split; [by apply v_int_parallel.v_int_integrand_Ok|].
    unfold velocity_integrals. by rewrite lookup_zip_with, !list_lookup_fmap, Hi.
Qed.

End long.

(** ** Reference runs *)

(** C4, as the specification has it, fails: for the electrons of the
    reference run seen along the field ([THETA = 0]), the denominator
    vanishes at [y = 0] and [p_d] returns there the double next below
    [|K_RADAR|], not [sign(y_last) * |K_RADAR|] itself. *)
Lemma p_d_limit_is_rounded :
  let p := reference.electrons 0 None "maxwell" in
  let ys := [0; 0x1p-20] in
  exists (out : list float) (v : float),
    p_d (H := reference.scipy) (initialize __init__ ys p) = Ok out /\
    (den_at (H := reference.scipy) p 0 =? 0) = true /\
    out !! 0%nat = Some v /\
    v = 0x1.b09518fcd4aedp+5 /\
    np_sign 0x1p-20 * abs (params.K_RADAR p) = 0x1.b09518fcd4aeep+5 /\
    (v =? np_sign 0x1p-20 * abs (params.K_RADAR p)) = false.
Proof.
  eexists _, _.
  split; [vm_compute; reflexivity|].
  split; [vm_compute; reflexivity|].
  split; [vm_compute; reflexivity|].
  split; [reflexivity|].
  split; vm_compute; reflexivity.
Qed.

Lemma p_d_zero_denominator_witness :
  let p := reference.electrons 0 None "maxwell" in
  let ys := [0; 0x1p-20] in
  let y_last := 0x1p-20 in
  exists out : list float,
    p_d (H := reference.scipy) (initialize __init__ ys p) = Ok out /\
    length out = length ys /\
    (forall (i : nat) (yi : float), ys !! i = Some yi ->
       (den_at (H := reference.scipy) p yi =? 0) = true ->
       out !! i
       = Some (np_sign y_last * abs (params.K_RADAR p) * abs (params.w_c p)
               / abs (params.w_c p))) /\
    (@ScipyFacts reference.scipy ->
     IEEE.finite (params.w_c p) ->
     IEEE.finite (reference.pow (reference.cos (params.THETA p)) 2
                  * reference.pow (params.w_c p) 2) ->
     IEEE.finite (2 * reference.pow (reference.sin (params.THETA p)) 2) ->
     forall yi : float, (yi =? 0) = true ->
       (den_at (H := reference.scipy) p yi =? 0) = true) /\
    (forall (p' : params.t) (out' : list float),
       params.K_RADAR p' = params.K_RADAR p ->
       params.w_c p' = params.w_c p \/ params.w_c p' = - params.w_c p ->
       p_d (H := reference.scipy) (initialize __init__ ys p') = Ok out' ->
       forall (i : nat) (yi : float), ys !! i = Some yi ->
         (den_at (H := reference.scipy) p yi =? 0) = true ->
         (den_at (H := reference.scipy) p' yi =? 0) = true ->
         out' !! i = out !! i).
Proof.
  apply (p_d_zero_denominator (H := reference.scipy)). reflexivity.
Defined.

Lemma v_int_diagnostic_frame_witness :
  let p := reference.electrons 0.5 (Some 3) "kappa" in
  let ys := [0; 0.5; 1] in
  let cf_v := [0; 1; 2] in
  let w := {| buffer := [9; 9; 9]; printed := [] |} in
  let sched_maxwell := [(2%nat, 1); (0%nat, 0); (1%nat, 0.5)] in
  let sched := [(1%nat, 0.5); (0%nat, 0); (2%nat, 1)] in
  let sched' := [(0%nat, 0); (1%nat, 0.5); (2%nat, 1)] in
  (forall (res : ndarray) (self' : t) (w' : world),
     v_int (H := reference.scipy) reference.f_0 cf_v (initialize __init__ ys p)
       sched_maxwell sched w = Ok (res, self', w') ->
     exists (c : vdf_class) (res0 : ndarray) (self0 : t) (w0 : world),
       select (params.vdf p) = Some c /\
       v_int_without_diagnostic (H := reference.scipy) reference.f_0 cf_v
         (initialize __init__ ys p) sched' w = Ok (res0, self0, w0) /\
       read res w' = read res0 w0 /\
       forall (i : nat) (yi : float), ys !! i = Some yi ->
         exists r : float,
           v_int_parallel.v_int_integrand (H := reference.scipy) yi p cf_v
             (reference.f_0 c cf_v p) = Ok r /\
           read res w' !! i = Some r) /\
  (cf_v <> [] -> ys <> [] ->
   length ys = length (buffer w) ->
   params.vdf p ∈ ["maxwell"; "kappa"; "kappa_vol2"; "gauss_shell"; "real_data"] ->
   exists (res : ndarray) (self' : t) (w' : world),
     v_int (H := reference.scipy) reference.f_0 cf_v (initialize __init__ ys p)
       sched_maxwell sched w = Ok (res, self', w')).
Proof.
  apply (v_int_diagnostic_frame (H := reference.scipy)).
  - intros c. apply reference.f_0_length.
  - exact (Permutation_cons_append [(0%nat, 0); (1%nat, 0.5)] (2%nat, 1)).
  - apply perm_swap.
  - reflexivity.
Defined.

(** C9 as it was claimed, for every input, fails: with two samples and a
    buffer of three slots [v_int] raises ValueError, from the Simpson
    integral of the whole buffer over the two samples that the
    diagnostic takes, while [v_int] without the diagnostic returns the
    buffer, the velocity integrals of the two samples in its first two
    slots. *)
Lemma v_int_diagnostic_raises :
  let p := params.make 2 0.5 4 1000 1 0 (Some 3) "kappa" in
  let ys := [0; 0.5] in
  let cf_v := [0; 1; 2] in
  let w := {| buffer := [9; 9; 9]; printed := [] |} in
  let sched_maxwell := [(1%nat, 0.5); (0%nat, 0)] in
  let sched := [(0%nat, 0); (1%nat, 0.5)] in
  v_int (H := reference.scipy) reference.f_0 cf_v (initialize __init__ ys p)
    sched_maxwell sched w = Raise ValueError /\
  exists (res0 : ndarray) (self0 : t) (w0 : world) (r0 r1 : float),
    v_int_without_diagnostic (H := reference.scipy) reference.f_0 cf_v
      (initialize __init__ ys p) sched w = Ok (res0, self0, w0) /\
    v_int_parallel.v_int_integrand (H := reference.scipy) 0 p cf_v
      (reference.f_0 F_KAPPA cf_v p) = Ok r0 /\
    v_int_parallel.v_int_integrand (H := reference.scipy) 0.5 p cf_v
      (reference.f_0 F_KAPPA cf_v p) = Ok r1 /\
    read res0 w0 = [r0; r1; 9] /\
    is_finite r0 = true /\ is_finite r1 = true.
Proof.
  cbv zeta. split; [vm_compute; reflexivity|].
  eexists _, _, _, _, _.
  split; [vm_compute; reflexivity|].
  split; [vm_compute; reflexivity|].
  split; [vm_compute; reflexivity|].
  split; [vm_compute; reflexivity|].
  split; vm_compute; reflexivity.
Qed.

Lemma v_int_raises_witness :
  let p := reference.electrons 0.5 None "isotropic" in
  let ys := [0; 0.5; 1] in
  let cf_v := [0; 1; 2] in
  let w := {| buffer := [9; 9; 9]; printed := [] |} in
  let sched_maxwell := [(2%nat, 1); (0%nat, 0); (1%nat, 0.5)] in
  let sched := [(1%nat, 0.5); (0%nat, 0); (2%nat, 1)] in
  (length (buffer w) < length ys ->
     v_int (H := reference.scipy) reference.f_0 cf_v (initialize __init__ ys p)
       sched_maxwell sched w = Raise IndexError) /\
  (length ys < length (buffer w) ->
     v_int (H := reference.scipy) reference.f_0 cf_v (initialize __init__ ys p)
       sched_maxwell sched w = Raise ValueError) /\
  (ys <> [] -> length ys = length (buffer w) ->
     params.vdf p ∉ ["maxwell"; "kappa"; "kappa_vol2"; "gauss_shell"; "real_data"] ->
     v_int (H := reference.scipy) reference.f_0 cf_v (initialize __init__ ys p)
       sched_maxwell sched w = Raise UnboundLocalError).
Proof.
  apply (v_int_raises (H := reference.scipy)).
  - intros c. apply reference.f_0_length.
  - discriminate.
  - exact (Permutation_cons_append [(0%nat, 0); (1%nat, 0.5)] (2%nat, 1)).
  - apply perm_swap.
Defined.

Lemma v_int_effects_witness :
  let p := reference.electrons 0.5 (Some 3) "kappa" in
  let ys := [0; 0.5; 1] in
  let cf_v := [0; 1; 2] in
  let w := {| buffer := [9; 9; 9]; printed := [] |} in
  let ratio := debye_ratio (H := reference.scipy) reference.f_0 cf_v ys p F_KAPPA in
  let self' := {| y := ys; params := Some p; char_vel := Some ratio |} in
  let w' := {| buffer := velocity_integrals (H := reference.scipy) reference.f_0 cf_v ys p F_KAPPA;
               printed := [ratio] |} in
  length ys = length (buffer w) /\
  exists c : vdf_class,
    select (params.vdf p) = Some c /\
    y self' = ys /\ params self' = Some p /\
    buffer w' = velocity_integrals (H := reference.scipy) reference.f_0 cf_v ys p c /\
    char_vel self'
    = Some (reference.simpson
              (velocity_integrals (H := reference.scipy) reference.f_0 cf_v ys p F_MAXWELL) ys
            / reference.simpson
                (velocity_integrals (H := reference.scipy) reference.f_0 cf_v ys p c) ys) /\
    printed w'
    = reference.simpson
        (velocity_integrals (H := reference.scipy) reference.f_0 cf_v ys p F_MAXWELL) ys
      / reference.simpson
          (velocity_integrals (H := reference.scipy) reference.f_0 cf_v ys p c) ys
      :: printed w.
Proof.
  apply (v_int_effects (H := reference.scipy) reference.f_0 [0; 1; 2] [0; 0.5; 1]
           (reference.electrons 0.5 (Some 3) "kappa")
           [(2%nat, 1); (0%nat, 0); (1%nat, 0.5)] [(1%nat, 0.5); (0%nat, 0); (2%nat, 1)]
           {| buffer := [9; 9; 9]; printed := [] |} shared_buffer).
  - intros c. apply reference.f_0_length.
  - exact (Permutation_cons_append [(0%nat, 0); (1%nat, 0.5)] (2%nat, 1)).
  - apply perm_swap.
  - vm_compute. reflexivity.
Defined.

Lemma v_int_maxwell_ratio_witness :
  let p := params.make 2 0.5 4 1000 1 0 None "maxwell" in
  let ys := [0; 0.5; 1] in
  let cf_v := [0; 1; 2] in
  let w := {| buffer := [9; 9; 9]; printed := [] |} in
  let self' := {| y := ys; params := Some p; char_vel := Some 1 |} in
  let w' := {| buffer := velocity_integrals (H := reference.scipy) reference.f_0 cf_v ys p F_MAXWELL;
               printed := [1] |} in
  char_vel self' = Some 1 /\ printed w' = 1 :: printed w.
Proof.
  apply (v_int_maxwell_ratio (H := reference.scipy) reference.f_0 [0; 1; 2] [0; 0.5; 1]
           (params.make 2 0.5 4 1000 1 0 None "maxwell")
           [(2%nat, 1); (0%nat, 0); (1%nat, 0.5)] [(1%nat, 0.5); (0%nat, 0); (2%nat, 1)]
           {| buffer := [9; 9; 9]; printed := [] |} shared_buffer).
  - intros c. apply reference.f_0_length.
  - exact (Permutation_cons_append [(0%nat, 0); (1%nat, 0.5)] (2%nat, 1)).
  - apply perm_swap.
  - reflexivity.
  - vm_compute. reflexivity.
  - vm_compute. reflexivity.
  - vm_compute. reflexivity.
Defined.

Lemma long_integrand_product_witness :
  let p := reference.electrons 0.5 (Some 3) "kappa" in
  let ys := [0; 0.5; 1] in
  let cf_v := [0; 1; 2] in
  let w := {| buffer := [9; 9; 9]; printed := [] |} in
  let sched_maxwell := [(2%nat, 1); (0%nat, 0); (1%nat, 0.5)] in
  let sched := [(1%nat, 0.5); (0%nat, 0); (2%nat, 1)] in
  exists (G : list float) (self' : t) (w' : world),
    integrand (H := reference.scipy) reference.f_0 cf_v (initialize __init__ ys p)
      sched_maxwell sched w = Ok (G, self', w') /\
    length G = length ys /\
    forall (i : nat) (yi : float), ys !! i = Some yi ->
      exists pd r : float,
        pd = (if den_at (H := reference.scipy) p yi =? 0 then first p 1
              else num_at (H := reference.scipy) p yi / den_at (H := reference.scipy) p yi) /\
        v_int_parallel.v_int_integrand (H := reference.scipy) yi p cf_v
          (reference.f_0 F_KAPPA cf_v p) = Ok r /\
        G !! i = Some (pd * r).
Proof.
  apply (long_integrand_product (H := reference.scipy)).
  - intros c. apply reference.f_0_length.
  - discriminate.
  - exact (Permutation_cons_append [(0%nat, 0); (1%nat, 0.5)] (2%nat, 1)).
  - apply perm_swap.
  - reflexivity.
  - reflexivity.
  - reflexivity.
Defined.

End INT_LONG.

End integrand_functions.
